(** * mGB-MCP: the bridge between the tool layer and the mGB MIDI sequencer

    A shallow embedding of [src/types.ts] (the argument validators) and of
    the core of [src/index.ts] (connection flag, optimistic send, message
    handler, resource read, tool dispatcher), followed by the properties
    the specification states about them.

    Conventions of the embedding.
    - Untyped call arguments ([any] in the source) are values of [any]:
      what [JSON.parse] can produce, plus [undefined] for an absent
      [arguments] field or an absent property.
    - A JavaScript exception is the [Throw] outcome of a [completion].
    - Inbound transport messages are modelled after decoding, at the types
      [src/types.ts] declares for them ([MgbState], [WsResponse],
      [CcUpdateNotification]); the source casts without checking.
    - [console.error] lines are not modelled: they have no effect on the
      transport, the cache or any returned value.
    - The built-in objects are as the engine creates them: a property read
      finds what the object holds itself or what [Object.prototype]
      defines.  One handler can write to a built-in object, the
      [cc_update] branch when the track of the message names a property
      of [Object.prototype]; it is marked by [escapes], and its effect on
      later property reads is not followed: a property that depends on
      those reads is stated for events that do not do so
      ([keeps_builtins]). *)

From Stdlib Require Import ZArith QArith Qround Lia String Ascii List Bool DecimalString.
From stdpp Require Import base option gmap strings.
Import ListNotations.

#[local] Set Warnings "-register-all".
Local Open Scope string_scope.
Local Open Scope bool_scope.

(** ** JavaScript values *)

(** A Number.  Every finite double is a rational; the validators only
    compare numbers with integer constants, so the exact rational value is
    all they depend on.  [JSON.parse] never yields [NaN] but does yield an
    infinity for an out-of-range literal such as [1e999]. *)
Inductive number : Type :=
  | Finite (q : Q)
  | PosInf
  | NegInf
  | NaN.

Coercion Finite : Q >-> number.

(** [x >= y] and [x <= y] on Numbers (false whenever a [NaN] is involved). *)
Definition num_leb (x y : number) : bool :=
  match x, y with
  | NaN, _ | _, NaN => false
  | NegInf, _ => true
  | _, PosInf => true
  | Finite a, Finite b => Qle_bool a b
  | _, _ => false
  end.

Definition num_geb (x y : number) : bool := num_leb y x.

(** Equality of Numbers as [includes] tests it against the finite
    constants of the source. *)
Definition num_eqb (x y : number) : bool :=
  match x, y with
  | Finite a, Finite b => Qeq_bool a b
  | PosInf, PosInf | NegInf, NegInf => true
  | _, _ => false
  end.

Inductive any : Type :=
  | VUndef
  | VNull
  | VBool (b : bool)
  | VNum (n : number)
  | VStr (s : string)
  | VArr (items : list any)
  | VObj (props : list (string * any)).

(** Own data property [k] of an object; [undefined] when absent.  A parsed
    object has each key once; in a list that repeats one, the first
    binding is the property. *)
Fixpoint lookup_prop (k : string) (props : list (string * any)) : any :=
  match props with
  | [] => VUndef
  | (k', v) :: rest => if String.eqb k k' then v else lookup_prop k rest
  end.

Inductive js_error : Type :=
  | TypeError_read (base : any) (prop : string)
      (* Cannot read properties of undefined/null (reading 'prop') *)
  | TypeError_to_primitive.
      (* Cannot convert object to primitive value *)

Inductive completion (A : Type) : Type :=
  | Normal (a : A)
  | Throw (e : js_error).
Arguments Normal {A} a.
Arguments Throw {A} e.

Definition bind {A B} (c : completion A) (k : A -> completion B) : completion B :=
  match c with
  | Normal a => k a
  | Throw e => Throw e
  end.

Notation "'let!' x ':=' c 'in' k" := (bind c (fun x => k))
  (at level 10, x name, c at level 100, k at level 200).

(** [base.k] for the property names the bridge reads ([bpm], [row], [col],
    [note], [divide], [updates], [type], [state], [states], [notes],
    [divides], [preset], [port], [enabled], [track], [cc], [value],
    [param]).  None of them is defined on a built-in prototype, so the
    read yields the own property of an object and [undefined] on any other
    value that can be converted to an object; on [undefined] and [null]
    it throws. *)
Definition Get (base : any) (k : string) : completion any :=
  match base with
  | VUndef | VNull => Throw (TypeError_read base k)
  | VObj props => Normal (lookup_prop k props)
  | _ => Normal VUndef
  end.

(** The same read once an earlier read of the same base has succeeded: the
    base is then neither [undefined] nor [null], and the read cannot throw. *)
Definition field (base : any) (k : string) : any :=
  match base with
  | VObj props => lookup_prop k props
  | _ => VUndef
  end.

Definition typeof_number (v : any) : bool :=
  match v with VNum _ => true | _ => false end.
Definition typeof_string (v : any) : bool :=
  match v with VStr _ => true | _ => false end.
Definition typeof_boolean (v : any) : bool :=
  match v with VBool _ => true | _ => false end.

(** [v >= lo && v <= hi] for a value already known to be a Number; the
    comparison of another kind of value is never reached in the source. *)
Definition in_range (lo hi : Q) (v : any) : bool :=
  match v with
  | VNum n => num_geb n lo && num_leb n hi
  | _ => false
  end.

(** [[1, 2, 3].includes(v)] *)
Definition includes_1_2_3 (v : any) : bool :=
  match v with
  | VNum n => num_eqb n 1%Q || num_eqb n 2%Q || num_eqb n 3%Q
  | _ => false
  end.

(** [names.includes(v)] for an array of string literals. *)
Definition includes_str (names : list string) (v : any) : bool :=
  match v with
  | VStr s => existsb (String.eqb s) names
  | _ => false
  end.

(** [arr.every(f)] for a callback that may throw: stops at the first
    [false], and at the first exception. *)
Fixpoint every (f : any -> completion bool) (items : list any) : completion bool :=
  match items with
  | [] => Normal true
  | x :: rest => let! b := f x in if b then every f rest else Normal false
  end.

(** [Array.isArray(v) && v.every(f)] for a callback that cannot throw. *)
Definition array_of (f : any -> bool) (v : any) : bool :=
  match v with
  | VArr items => forallb f items
  | _ => false
  end.

(** ** [src/types.ts]: the validators *)

Definition isSetBpmArgs (args : any) : completion bool :=
  let! bpm := Get args "bpm" in
  Normal (typeof_number bpm && in_range 60 300 bpm).

Definition isToggleStepArgs (args : any) : completion bool :=
  let! row := Get args "row" in
  Normal (typeof_number row && typeof_number (field args "col")).

Definition isSetNoteArgs (args : any) : completion bool :=
  let! divide := Get args "divide" in
  let validDivide :=
    match divide with VUndef => true | _ => includes_1_2_3 divide end in
  Normal (typeof_number (field args "row") &&
          typeof_number (field args "col") &&
          typeof_number (field args "note") &&
          in_range 0 127 (field args "note") &&
          validDivide).

Definition validTypes : list string :=
  ["sequence"; "note"; "divide";
   "sequence_row"; "note_row"; "divide_row";
   "sequence_all"; "note_all"; "divide_all"].

Definition is_note (v : any) : bool := typeof_number v && in_range 0 127 v.

(** The [switch (update.type)] of the callback below; every later read of
    [update] follows a successful read of [update.type]. *)
Definition batch_case (ty : string) (update : any) : bool :=
  let row := field update "row" in
  let col := field update "col" in
  if String.eqb ty "sequence" then
    typeof_number row && typeof_number col &&
    typeof_boolean (field update "state")
  else if String.eqb ty "note" then
    typeof_number row && typeof_number col && is_note (field update "note")
  else if String.eqb ty "divide" then
    typeof_number row && typeof_number col &&
    includes_1_2_3 (field update "divide")
  else if String.eqb ty "sequence_row" then
    typeof_number row && array_of typeof_boolean (field update "states")
  else if String.eqb ty "note_row" then
    typeof_number row && array_of is_note (field update "notes")
  else if String.eqb ty "divide_row" then
    typeof_number row && array_of includes_1_2_3 (field update "divides")
  else if String.eqb ty "sequence_all" then
    array_of (array_of typeof_boolean) (field update "states")
  else if String.eqb ty "note_all" then
    array_of (array_of is_note) (field update "notes")
  else if String.eqb ty "divide_all" then
    array_of (array_of includes_1_2_3) (field update "divides")
  else false.

(** The callback of [args.updates.every(...)]. *)
Definition isBatchUpdate (update : any) : completion bool :=
  let! ty := Get update "type" in
  if negb (includes_str validTypes ty) then Normal false else
  match ty with
  | VStr s => Normal (batch_case s update)
  | _ => Normal false
  end.

Definition isBatchUpdateArgs (args : any) : completion bool :=
  let! updates := Get args "updates" in
  match updates with
  | VArr items => every isBatchUpdate items
  | _ => Normal false
  end.

Definition isSendPresetArgs (args : any) : completion bool :=
  let! preset := Get args "preset" in Normal (typeof_string preset).

Definition isChangeMidiOutputArgs (args : any) : completion bool :=
  let! port := Get args "port" in Normal (typeof_string port).

Definition isChangeMidiInputArgs (args : any) : completion bool :=
  let! port := Get args "port" in Normal (typeof_string port).

Definition isToggleMidiClockArgs (args : any) : completion bool :=
  let! enabled := Get args "enabled" in Normal (typeof_boolean enabled).

Definition validTracks : list string := ["PU1"; "PU2"; "WAV"; "NOISE"; "POLY"].

Definition is_digit (c : ascii) : bool :=
  (48 <=? nat_of_ascii c)%nat && (nat_of_ascii c <=? 57)%nat.

Fixpoint all_digits (s : string) : bool :=
  match s with
  | EmptyString => true
  | String c rest => is_digit c && all_digits rest
  end.

(** [/^cc\d+$/.test(s)] *)
Definition matches_cc_digits (s : string) : bool :=
  match s with
  | String "c" (String "c" (String d rest)) => is_digit d && all_digits rest
  | _ => false
  end.

Definition isValidCC (cc : any) : bool :=
  match cc with
  | VStr s => matches_cc_digits s
  | VNum n => num_geb n 0%Q && num_leb n 127%Q
  | _ => false
  end.

Definition isUpdateCcArgs (args : any) : completion bool :=
  let! track := Get args "track" in
  Normal (includes_str validTracks track &&
          isValidCC (field args "cc") &&
          typeof_number (field args "value") &&
          in_range 0 127 (field args "value")).

(** ** Doubles, for [Math.random() * 3000]

    The one place where the bridge computes with a Number is the reconnect
    delay, so the product is modelled with its rounding: a finite double is
    [mant * 2^expo] and a product is rounded to 53 significant bits, to
    nearest with ties to even.  Overflow cannot occur for a factor below 1
    and is not modelled. *)
Module Binary64.

Local Open Scope Z_scope.

Record t : Type := mk { mant : Z; expo : Z }.

Definition valid (x : t) : Prop :=
  Z.abs (mant x) < 2 ^ 53 /\ -1074 <= expo x <= 971.

Definition to_Q (x : t) : Q :=
  if 0 <=? expo x then inject_Z (mant x * 2 ^ expo x)
  else Qmake (mant x) (Z.to_pos (2 ^ (- expo x))).

Definition of_Z (n : Z) : t := mk n 0.

(** [m / 2^s] rounded to the nearest integer, ties to even ([m], [s] >= 0). *)
Definition shr_rne (m s : Z) : Z :=
  let q := Z.shiftr m s in
  let r := m - Z.shiftl q s in
  let half := 2 ^ (s - 1) in
  if s =? 0 then m
  else if r <? half then q
  else if half <? r then q + 1
  else if Z.even q then q else q + 1.

(** The double nearest to [m * 2^e], for [m >= 0]. *)
Definition round (m e : Z) : t :=
  let s := Z.max 0 (Z.max (Z.log2 m + 1 - 53) (-1074 - e)) in
  mk (shr_rne m s) (e + s).

Definition opp (x : t) : t := mk (- mant x) (expo x).

Definition mul (x y : t) : t :=
  let m := mant x * mant y in
  let e := expo x + expo y in
  if m <? 0 then opp (round (- m) e) else round m e.

(** [Math.floor] *)
Definition floor (x : t) : Z := Z.shiftl (mant x) (expo x).

End Binary64.

(** [5000 + Math.floor(Math.random() * 3000)], for the double [random]
    that [Math.random()] returned.  The floor is an integer below 2^53, so
    the addition is exact. *)
Definition reconnectDelay (random : Binary64.t) : Z :=
  (5000 + Binary64.floor (Binary64.mul random (Binary64.of_Z 3000)))%Z.

(** ** Plain objects

    An object as [JSON.parse] or an object literal creates it, for the
    objects the bridge writes to: its own data properties in the order of
    their creation, each name once.  (In a list that repeats a name the
    first binding is the property.)  Enumeration, hence [JSON.stringify],
    lists the names that are array indices first and the others in the
    order of creation: two objects equal as lists are enumerated alike.
    The prototype of such an object is [Object.prototype]. *)
Definition object (A : Type) : Type := list (string * A).

(** [{}] *)
#[global] Instance object_empty {A : Type} : Empty (object A) := [].

(** The own property [k], if any. *)
Fixpoint own {A : Type} (k : string) (o : object A) : option A :=
  match o with
  | [] => None
  | (k', v) :: rest => if String.eqb k k' then Some v else own k rest
  end.

(** The own property [k] set to [v]: in its place when [o] has it, created
    after the others when not. *)
Fixpoint store {A : Type} (k : string) (v : A) (o : object A) : object A :=
  match o with
  | [] => [(k, v)]
  | (k', v') :: rest =>
      if String.eqb k k' then (k', v) :: rest else (k', v') :: store k v rest
  end.

(** The property names of [Object.prototype], as the engine creates it.
    All are methods but [__proto__], an accessor whose getter returns the
    prototype of the object and whose setter ignores a value that is
    neither an object nor [null]. *)
Definition Object_prototype : list string :=
  ["constructor"; "__defineGetter__"; "__defineSetter__"; "hasOwnProperty";
   "__lookupGetter__"; "__lookupSetter__"; "isPrototypeOf";
   "propertyIsEnumerable"; "toString"; "valueOf"; "__proto__";
   "toLocaleString"].

(** [k] names a property a plain object inherits. *)
Definition inherited (k : string) : bool :=
  existsb (String.eqb k) Object_prototype.

(** [row[k] = v] for a Number [v], on a plain object of Numbers.  The
    assignment updates an own property; without one it creates it, the
    inherited property of that name, if any, being a writable method,
    except for [__proto__], whose setter is called and, for a Number, does
    nothing. *)
Definition assign (k : string) (v : number) (row : object number)
  : object number :=
  match own k row with
  | Some _ => store k v row
  | None => if String.eqb k "__proto__" then row else store k v row
  end.

(** ** Wire shapes of [src/types.ts] *)

Inductive Status : Type := success | error.

(** [WsResponse]; its [type] tag is the constant ["response"]. *)
Record WsResponse : Type := mkResponse {
  status : Status;
  data : option any;
  message : option string
}.

(** [WsCommand]: [{ command, ...fields }]. *)
Record WsCommand : Type := mkCommand {
  command : string;
  fields : list (string * any)
}.

Inductive cc_id : Type :=
  | CcNumber (n : number)
  | CcString (s : string).

Record CcUpdateNotification : Type := mkCcUpdate {
  track : string;
  cc : cc_id;
  value : number
}.

(** [MgbState].  The cast [message as MgbState] is unchecked, and the
    handler of [cc_update] tests [currentState.cc_values] before it uses it:
    a snapshot may come without the field.  [cc_values] and the object of
    each track are plain objects. *)
Record MgbState : Type := mkState {
  is_playing : bool;
  bpm : number;
  current_step : number;
  sequence : list (list bool);
  note_values : list (list number);
  midi_output : string;
  midi_input : string;
  midi_clock_enabled : bool;
  cc_values : option (object (object number))
}.

Definition set_cc_values (ccv : object (object number)) (st : MgbState)
  : MgbState :=
  mkState (is_playing st) (bpm st) (current_step st) (sequence st)
          (note_values st) (midi_output st) (midi_input st)
          (midi_clock_enabled st) (Some ccv).

(** A decoded inbound payload, by its [type] discriminator; [MsgOther] is
    anything else, including a payload [JSON.parse] rejects. *)
Inductive inbound : Type :=
  | MsgState (st : MgbState)
  | MsgResponse (r : WsResponse)
  | MsgCcUpdate (u : CcUpdateNotification)
  | MsgOther.

(** ** Server state of [src/index.ts] *)

(** What [wsClient.send] may throw: [e instanceof Error] with its
    [e.message], or another value with its [String(e)]. *)
Inductive thrown : Type :=
  | an_Error (msg : string)
  | a_value (as_String : string).

Definition cause (e : thrown) : string :=
  match e with
  | an_Error msg => msg
  | a_value str => str
  end.

(** Whether the transport accepts a write is decided by the [ws] library
    and the network, outside the bridge. *)
Inductive send_outcome : Type :=
  | Written
  | SendThrows (e : thrown).

Inductive promise (A : Type) : Type :=
  | Resolved (a : A)
  | Rejected (e : thrown).
Arguments Resolved {A} a.
Arguments Rejected {A} e.

(** The module-level variables [wsClient], [currentState], [isConnected],
    and a log of what the server did to the outside: the command objects
    it serialized and wrote to the transport, and the delays passed to
    [setTimeout], oldest first. *)
Record Server : Type := mkServer {
  wsClient : option nat;
  currentState : option MgbState;
  isConnected : bool;
  transport : list WsCommand;
  timers : list Z
}.

Definition set_wsClient (ws : option nat) (srv : Server) : Server :=
  mkServer ws (currentState srv) (isConnected srv) (transport srv) (timers srv).
Definition set_currentState (st : option MgbState) (srv : Server) : Server :=
  mkServer (wsClient srv) st (isConnected srv) (transport srv) (timers srv).
Definition set_isConnected (b : bool) (srv : Server) : Server :=
  mkServer (wsClient srv) (currentState srv) b (transport srv) (timers srv).
Definition ws_send (c : WsCommand) (srv : Server) : Server :=
  mkServer (wsClient srv) (currentState srv) (isConnected srv)
           (transport srv ++ [c]) (timers srv).
Definition setTimeout_connect (delay : Z) (srv : Server) : Server :=
  mkServer (wsClient srv) (currentState srv) (isConnected srv)
           (transport srv) (timers srv ++ [delay]).

(** Module load: no socket, no cached state, not connected. *)
Definition module_init : Server := mkServer None None false [] [].

Definition is_null {A} (o : option A) : bool :=
  match o with Some _ => false | None => true end.

(** [sendCommand].  The promise is settled inside the executor, in the
    same turn; the function has no access to inbound messages. *)
Definition sendCommand (env : send_outcome) (cmd : WsCommand) (srv : Server)
  : promise WsResponse * Server :=
  if negb (isConnected srv) || is_null (wsClient srv) then
    (Resolved (mkResponse error None (Some "Not connected to mGB MIDI sequencer")),
     srv)
  else
    match env with
    | Written =>
        (Resolved (mkResponse success
                     (Some (VObj [("command", VStr (command cmd))])) None),
         ws_send cmd srv)
    | SendThrows e =>
        (Resolved (mkResponse error None
                     (Some ("Error sending command: " +:+ cause e))),
         srv)
    end.

(** The two connection states [sendCommand] distinguishes:
    [!isConnected || !wsClient] and its negation. *)
Definition Connected (srv : Server) : Prop :=
  isConnected srv = true /\ wsClient srv <> None.
Definition Disconnected (srv : Server) : Prop :=
  isConnected srv = false \/ wsClient srv = None.

(** [srv'] differs from [srv] in the transport log only. *)
Definition unchanged_but_transport (srv srv' : Server) : Prop :=
  wsClient srv' = wsClient srv /\ currentState srv' = currentState srv /\
  isConnected srv' = isConnected srv /\ timers srv' = timers srv.

(** [connectToMgb]: the previous socket, if any, is terminated and a new
    one replaces it in [wsClient]. *)
Definition connectToMgb (srv : Server) : Server :=
  set_wsClient (Some (match wsClient srv with Some n => S n | None => O end)) srv.

(** [wsClient.on("open")] *)
Definition on_open (env : send_outcome) (srv : Server) : Server :=
  snd (sendCommand env (mkCommand "get_state" []) (set_isConnected true srv)).

(** [wsClient.on("error")] *)
Definition on_error (srv : Server) : Server := set_isConnected false srv.

(** [wsClient.on("close")]; [random] is what [Math.random()] returns in
    this run of the handler. *)
Definition on_close (random : Binary64.t) (srv : Server) : Server :=
  setTimeout_connect (reconnectDelay random) (set_isConnected false srv).

(** ** Conversions to text *)

(** The quotation mark, for the one message that contains it. *)
Definition dquote : string := String (ascii_of_nat 34) EmptyString.

Definition is_integer (q : Q) : bool := (Qden (Qred q) =? 1)%positive.

Definition has_own (k : string) (props : list (string * any)) : bool :=
  existsb (fun kv => String.eqb k (fst kv)) props.

(** [ToBoolean] *)
Definition truthy (v : any) : bool :=
  match v with
  | VUndef | VNull => false
  | VBool b => b
  | VNum (Finite q) => negb (Qeq_bool q 0)
  | VNum NaN => false
  | VNum _ => true
  | VStr s => negb (String.eqb s EmptyString)
  | VArr _ | VObj _ => true
  end.

(** [m || fallback] for an optional string. *)
Definition or_else (m : option string) (fallback : string) : string :=
  match m with
  | Some s => if String.eqb s EmptyString then fallback else s
  | None => fallback
  end.

(** ** Results of request handlers *)

Inductive ErrorCode : Type :=
  | InvalidRequest | MethodNotFound | InvalidParams | InternalError.

(** [McpError].  [mcp_internal e] is the error the dispatcher builds in
    its [catch]: code [InternalError] and the message
    ["Error calling mGB API: " + e.message], where [e.message] is the
    engine's wording of [e]. *)
Inductive McpError : Type :=
  | mcp_error (code : ErrorCode) (msg : string)
  | mcp_internal (e : js_error).

(** [error.code] *)
Definition code (e : McpError) : ErrorCode :=
  match e with
  | mcp_error c _ => c
  | mcp_internal _ => InternalError
  end.

Inductive outcome (A : Type) : Type :=
  | Returned (a : A)
  | Raised (e : McpError).
Arguments Returned {A} a.
Arguments Raised {A} e.

(** A [text] field: a string, or [JSON.stringify(x, null, 2)] kept as its
    argument [x]. *)
Inductive rendered : Type :=
  | Plain (s : string)
  | JSON_stringify (v : any)
  | JSON_stringify_state (st : MgbState).

(** ** The state resource: shapes *)

Record contents : Type := mkContents {
  uri : string;
  mimeType : string;
  text : rendered
}.

(** The document returned when no state is available. *)
Definition dummy_state (_error : string) : any :=
  VObj [("is_playing", VBool false);
        ("bpm", VNum 120%Q);
        ("current_step", VNum 0%Q);
        ("sequence", VArr []);
        ("note_values", VArr []);
        ("midi_output", VStr EmptyString);
        ("midi_input", VStr EmptyString);
        ("midi_clock_enabled", VBool false);
        ("cc_values", VObj []);
        ("_error", VStr _error)].

Definition json_contents (u : string) (t : rendered) : contents :=
  mkContents u "application/json" t.

Section Bridge.

(** [Number::toString] of a finite Number that is not an integer below
    2^53 in magnitude: the shortest digits that read back as the same
    double, with a fraction, an exponent or trailing zeros (2^60 is
    printed [1152921504606847000]).  The bridge only copies that text, so
    it stays a parameter. *)
Variable Number_toString_other : Q -> string.

(** [Number::toString].  An integer below 2^53 in magnitude is a double
    whose neighbours are at most 1 away, and no shorter digit string reads
    back as it: it is printed exactly. *)
Definition numberToString (n : number) : string :=
  match n with
  | NaN => "NaN"
  | PosInf => "Infinity"
  | NegInf => "-Infinity"
  | Finite q =>
      let z := Qnum (Qred q) in
      if is_integer q && (Z.abs z <? 2 ^ 53)%Z
      then NilZero.string_of_int (Z.to_int z)
      else Number_toString_other q
  end.

(** [ToString], as a template literal applies it.  An array joins its
    elements with commas, [null] and [undefined] elements being empty.
    An object parsed from JSON inherits [Object.prototype.toString]
    unless it has an own property of that name, which cannot be a
    function: the conversion then throws. *)
Fixpoint ToString (v : any) : completion string :=
  match v with
  | VUndef => Normal "undefined"
  | VNull => Normal "null"
  | VBool b => Normal (if b then "true" else "false")
  | VNum n => Normal (numberToString n)
  | VStr s => Normal s
  | VArr items =>
      (fix join (l : list any) : completion string :=
         match l with
         | [] => Normal EmptyString
         | x :: rest =>
             let! s := match x with
                       | VUndef | VNull => Normal EmptyString
                       | _ => ToString x
                       end in
             match rest with
             | [] => Normal s
             | _ => let! t := join rest in Normal (s +:+ "," +:+ t)
             end
         end) items
  | VObj props =>
      if has_own "toString" props then Throw TypeError_to_primitive
      else Normal "[object Object]"
  end.

(** *** The [message] handler *)

(** [typeof message.cc === 'number' ? `cc${message.cc}` : message.cc] *)
Definition ccKey (id : cc_id) : string :=
  match id with
  | CcNumber n => "cc" +:+ numberToString n
  | CcString s => s
  end.

(** The [cc_update] branch of [wsClient.on("message")], as a function of
    the cache ([currentState]), with the built-in objects as the engine
    creates them.  [cc_values[track]] reads the own property or else the
    inherited one, a built-in object for each name of [Object_prototype]
    and [undefined] for any other; the object of a track is created only
    when the read gives [undefined].  When the read gives a built-in
    object, the assignment to [cc_values[track][ccKey]] lands on that
    object (or is refused by it) and the cache is left as it was. *)
Definition applyCcUpdate (u : CcUpdateNotification) (cache : option MgbState)
  : option MgbState :=
  match cache with
  | None => None
  | Some st =>
      match cc_values st with
      | None => Some st
      | Some ccv =>
          let ccv1 :=
            match own (track u) ccv with
            | Some _ => ccv
            | None => if inherited (track u) then ccv
                      else store (track u) ∅ ccv
            end in
          match own (track u) ccv1 with
          | Some row =>
              Some (set_cc_values
                      (store (track u) (assign (ccKey (cc u)) (value u) row) ccv1)
                      st)
          | None => Some st
          end
      end
  end.


Definition on_message (m : inbound) (srv : Server) : Server :=
  match m with
  | MsgState st => set_currentState (Some st) srv
  | MsgResponse _ => srv
  | MsgCcUpdate u => set_currentState (applyCcUpdate u (currentState srv)) srv
  | MsgOther => srv
  end.

(** *** The state resource *)

(** The [ReadResourceRequestSchema] handler. *)
Definition readResource (env : send_outcome) (u : string) (srv : Server)
  : outcome contents * Server :=
  if negb (String.eqb u "mgb://state") then
    (Raised (mcp_error InvalidRequest ("Unknown resource: " +:+ u)), srv)
  else
    match currentState srv with
    | Some st => (Returned (json_contents u (JSON_stringify_state st)), srv)
    | None =>
        let (p, srv') := sendCommand env (mkCommand "get_state" []) srv in
        match p with
        | Rejected e =>
            (Returned (json_contents u (JSON_stringify (dummy_state
               (match e with
                | an_Error msg => msg
                | a_value _ => "Unknown error"
                end)))), srv')
        | Resolved response =>
            match status response with
            | error =>
                (Returned (json_contents u (JSON_stringify (dummy_state
                   (or_else (message response)
                      "Failed to connect to mGB MIDI sequencer")))), srv')
            | success =>
                match currentState srv' with
                | None =>
                    (Returned (json_contents u (JSON_stringify
                       (dummy_state "mGB state is not available"))), srv')
                | Some st =>
                    (Returned (json_contents u (JSON_stringify_state st)), srv')
                end
            end
        end
    end.

(** *** The tools *)

(** Names declared by the [ListToolsRequestSchema] handler. *)
Definition tools : list string :=
  ["toggle_play"; "set_bpm"; "toggle_step"; "set_note"; "send_preset";
   "batch_update"; "get_midi_ports"; "change_midi_output";
   "change_midi_input"; "toggle_midi_clock"; "update_cc"].

(** [response.data?.k] *)
Definition data_field (r : WsResponse) (k : string) : any :=
  match data r with
  | Some d => field d k
  | None => VUndef
  end.

Definition of_completion (c : completion string) : outcome rendered :=
  match c with
  | Normal s => Returned (Plain s)
  | Throw e => Raised (mcp_internal e)
  end.

(** [if (!isXArgs(args)) throw new McpError(InvalidParams, invalid)],
    inside the dispatcher's [try]: an exception of the validator reaches
    the [catch] and leaves as an [InternalError]. *)
Definition validated (verdict : completion bool) (invalid : string)
           (k : Server -> outcome rendered * Server) (srv : Server)
  : outcome rendered * Server :=
  match verdict with
  | Throw e => (Raised (mcp_internal e), srv)
  | Normal false => (Raised (mcp_error InvalidParams invalid), srv)
  | Normal true => k srv
  end.

(** [const response = await this.sendCommand(cmd)], followed by the
    report of an error response and, otherwise, by [on_success]. *)
Definition awaited (env : send_outcome) (cmd : WsCommand)
           (on_success : WsResponse -> completion string) (srv : Server)
  : outcome rendered * Server :=
  let (p, srv') := sendCommand env cmd srv in
  match p with
  | Rejected e =>
      (Raised (mcp_error InternalError ("Error calling mGB API: " +:+ cause e)),
       srv')
  | Resolved response =>
      match status response with
      | error =>
          (Returned (Plain ("Error: " +:+
                            or_else (message response) "Unknown error")), srv')
      | success => (of_completion (on_success response), srv')
      end
  end.

Definition tool_toggle_play (env : send_outcome) :=
  awaited env (mkCommand "toggle_play" [])
    (fun response =>
       Normal ("Playback " +:+
               (if truthy (data_field response "is_playing")
                then "started" else "stopped"))).

Definition tool_set_bpm (env : send_outcome) (args : any) :=
  validated (isSetBpmArgs args) "Invalid BPM arguments"
    (awaited env (mkCommand "set_bpm" [("bpm", field args "bpm")])
       (fun response =>
          let! b := ToString (data_field response "bpm") in
          Normal ("BPM set to " +:+ b))).

Definition tool_toggle_step (env : send_outcome) (args : any) :=
  validated (isToggleStepArgs args) "Invalid toggle step arguments"
    (awaited env (mkCommand "toggle_step"
                    [("row", field args "row"); ("col", field args "col")])
       (fun response =>
          let! r := ToString (data_field response "row") in
          let! c := ToString (data_field response "col") in
          Normal ("Step [" +:+ r +:+ ", " +:+ c +:+ "] set to " +:+
                  (if truthy (data_field response "value")
                   then "ON" else "OFF")))).

Definition tool_set_note (env : send_outcome) (args : any) :=
  validated (isSetNoteArgs args) "Invalid set note arguments"
    (awaited env
       (mkCommand "set_note"
          ([("row", field args "row"); ("col", field args "col");
            ("note", field args "note")] ++
           match field args "divide" with
           | VUndef => []
           | d => [("divide", d)]
           end))
       (fun response =>
          let! r := ToString (data_field response "row") in
          let! c := ToString (data_field response "col") in
          let! n := ToString (data_field response "note") in
          let responseText :=
            "Note at [" +:+ r +:+ ", " +:+ c +:+ "] set to " +:+ n in
          if truthy (data_field response "divide") then
            let! d := ToString (data_field response "divide") in
            Normal (responseText +:+ " with division " +:+ d)
          else Normal responseText)).

Definition tool_send_preset (env : send_outcome) (args : any) :=
  validated (isSendPresetArgs args) "Invalid preset arguments"
    (awaited env (mkCommand "send_preset" [("preset", field args "preset")])
       (fun response =>
          let! p := ToString (data_field response "preset") in
          Normal ("Preset " +:+ dquote +:+ p +:+ dquote +:+
                  " applied successfully"))).

Definition tool_batch_update (env : send_outcome) (args : any) :=
  validated (isBatchUpdateArgs args) "Invalid batch update arguments"
    (awaited env (mkCommand "batch_update" [("updates", field args "updates")])
       (fun _ => Normal "Batch update completed successfully")).

Definition tool_get_midi_ports (env : send_outcome) (srv : Server)
  : outcome rendered * Server :=
  let (p, srv') := sendCommand env (mkCommand "get_available_ports" []) srv in
  match p with
  | Rejected e =>
      (Raised (mcp_error InternalError ("Error calling mGB API: " +:+ cause e)),
       srv')
  | Resolved response =>
      match status response with
      | error =>
          (Returned (Plain ("Error: " +:+
                            or_else (message response) "Unknown error")), srv')
      | success =>
          (Returned (JSON_stringify (default VUndef (data response))), srv')
      end
  end.

Definition tool_change_midi_output (env : send_outcome) (args : any) :=
  validated (isChangeMidiOutputArgs args) "Invalid MIDI output arguments"
    (awaited env (mkCommand "change_midi_output" [("port", field args "port")])
       (fun response =>
          let! p := ToString (data_field response "port") in
          Normal ("MIDI output changed to " +:+ p))).

Definition tool_change_midi_input (env : send_outcome) (args : any) :=
  validated (isChangeMidiInputArgs args) "Invalid MIDI input arguments"
    (awaited env (mkCommand "change_midi_input" [("port", field args "port")])
       (fun response =>
          let! p := ToString (data_field response "port") in
          Normal ("MIDI input changed to " +:+ p))).

Definition tool_toggle_midi_clock (env : send_outcome) (args : any) :=
  validated (isToggleMidiClockArgs args) "Invalid MIDI clock arguments"
    (awaited env (mkCommand "toggle_midi_clock"
                    [("enabled", field args "enabled")])
       (fun response =>
          Normal ("MIDI clock " +:+
                  (if truthy (data_field response "midi_clock_enabled")
                   then "enabled" else "disabled")))).

(** [case "update_cc"]: the command is sent without [await], its
    response is dropped, and the text is built from the arguments. *)
Definition tool_update_cc (env : send_outcome) (args : any) :=
  validated (isUpdateCcArgs args) "Invalid control change arguments"
    (fun srv =>
       let srv' :=
         snd (sendCommand env
                (mkCommand "update_cc"
                   [("track", field args "track"); ("cc", field args "cc");
                    ("value", field args "value")]) srv) in
       (of_completion
          (let! t := ToString (field args "track") in
           let! c := ToString (field args "cc") in
           let! v := ToString (field args "value") in
           Normal ("CC update sent for " +:+ t +:+ " " +:+ c +:+ " = " +:+ v)),
        srv')).

(** [case "update_synth_param"]: no validator; the first read of a
    property of [args] is the one that builds the command. *)
Definition tool_update_synth_param (env : send_outcome) (args : any)
           (srv : Server) : outcome rendered * Server :=
  match Get args "track" with
  | Throw e => (Raised (mcp_internal e), srv)
  | Normal tr =>
      let srv' :=
        snd (sendCommand env
               (mkCommand "update_cc"
                  [("track", tr); ("cc", field args "param");
                   ("value", field args "value")]) srv) in
      (of_completion
         (let! t := ToString (field args "track") in
          let! p := ToString (field args "param") in
          let! v := ToString (field args "value") in
          Normal ("Synth parameter update sent for " +:+
                  t +:+ " " +:+ p +:+ " = " +:+ v)),
       srv')
  end.

(** The [CallToolRequestSchema] handler: the [switch] on
    [request.params.name], inside [try ... catch]. *)
Definition callTool (env : send_outcome) (name : string) (args : any)
           (srv : Server) : outcome rendered * Server :=
  if String.eqb name "toggle_play" then tool_toggle_play env srv
  else if String.eqb name "set_bpm" then tool_set_bpm env args srv
  else if String.eqb name "toggle_step" then tool_toggle_step env args srv
  else if String.eqb name "set_note" then tool_set_note env args srv
  else if String.eqb name "send_preset" then tool_send_preset env args srv
  else if String.eqb name "batch_update" then tool_batch_update env args srv
  else if String.eqb name "get_midi_ports" then tool_get_midi_ports env srv
  else if String.eqb name "change_midi_output"
    then tool_change_midi_output env args srv
  else if String.eqb name "change_midi_input"
    then tool_change_midi_input env args srv
  else if String.eqb name "toggle_midi_clock"
    then tool_toggle_midi_clock env args srv
  else if String.eqb name "update_cc" then tool_update_cc env args srv
  else if String.eqb name "update_synth_param"
    then tool_update_synth_param env args srv
  else (Raised (mcp_error MethodNotFound ("Unknown tool: " +:+ name)), srv).

(** *** Turns of the event loop *)

Inductive event : Type :=
  | ws_open (env : send_outcome)
  | ws_message (m : inbound)
  | ws_error
  | ws_close (random : Binary64.t)
  | timer_fired
  | tool_call (env : send_outcome) (name : string) (args : any)
  | resource_read (env : send_outcome) (u : string).

Definition step (srv : Server) (ev : event) : Server :=
  match ev with
  | ws_open env => on_open env srv
  | ws_message m => on_message m srv
  | ws_error => on_error srv
  | ws_close random => on_close random srv
  | timer_fired => connectToMgb srv
  | tool_call env name args => snd (callTool env name args srv)
  | resource_read env u => snd (readResource env u srv)
  end.

(** The constructor of [MgbServer] calls [connectToMgb] once. *)
Definition boot : Server := connectToMgb module_init.

Definition run (evs : list event) : Server := fold_left step evs boot.

End Bridge.

(** ** The batch item schema, as the specification tabulates it

    Nine variants: a granularity (cell, row, grid) crossed with an
    attribute (on/off state, note pitch, rhythmic division).  This reading
    of the table is independent of [isBatchUpdate]; the two are compared
    below.  The variant tags are those of the [BatchUpdate] union. *)

Inductive granularity : Type := per_cell | per_row | per_grid.
Inductive attribute : Type := attr_state | attr_note | attr_divide.

Definition variant_tag (g : granularity) (a : attribute) : string :=
  match g, a with
  | per_cell, attr_state => "sequence"
  | per_cell, attr_note => "note"
  | per_cell, attr_divide => "divide"
  | per_row, attr_state => "sequence_row"
  | per_row, attr_note => "note_row"
  | per_row, attr_divide => "divide_row"
  | per_grid, attr_state => "sequence_all"
  | per_grid, attr_note => "note_all"
  | per_grid, attr_divide => "divide_all"
  end.

Definition payload_name (g : granularity) (a : attribute) : string :=
  match g, a with
  | per_cell, attr_state => "state"
  | per_cell, attr_note => "note"
  | per_cell, attr_divide => "divide"
  | _, attr_state => "states"
  | _, attr_note => "notes"
  | _, attr_divide => "divides"
  end.

Definition is_boolean (v : any) : Prop := exists b, v = VBool b.
Definition is_number (v : any) : Prop := exists n, v = VNum n.

(** [note : 0..127] *)
Definition note_ok (v : any) : Prop :=
  exists q, v = VNum (Finite q) /\ (0 <= q)%Q /\ (q <= 127)%Q.

(** [divide : 1|2|3] *)
Definition divide_ok (v : any) : Prop :=
  exists q, v = VNum (Finite q) /\ (q == 1 \/ q == 2 \/ q == 3)%Q.

Definition array_with (P : any -> Prop) (v : any) : Prop :=
  exists items, v = VArr items /\ Forall P items.

Definition attribute_ok (a : attribute) : any -> Prop :=
  match a with
  | attr_state => is_boolean
  | attr_note => note_ok
  | attr_divide => divide_ok
  end.

Definition payload_ok (g : granularity) (a : attribute) : any -> Prop :=
  match g with
  | per_cell => attribute_ok a
  | per_row => array_with (attribute_ok a)
  | per_grid => array_with (array_with (attribute_ok a))
  end.

(** The check [batch_case] applies to one attribute value. *)
Definition attribute_check (a : attribute) : any -> bool :=
  match a with
  | attr_state => typeof_boolean
  | attr_note => is_note
  | attr_divide => includes_1_2_3
  end.

Definition coordinates_ok (g : granularity) (update : any) : Prop :=
  match g with
  | per_cell => is_number (field update "row") /\ is_number (field update "col")
  | per_row => is_number (field update "row")
  | per_grid => True
  end.

Definition matches_schema (update : any) : Prop :=
  exists g a,
    field update "type" = VStr (variant_tag g a) /\
    coordinates_ok g update /\
    payload_ok g a (field update (payload_name g a)).

(** The operation names of the specification's operation surface. *)
Definition spec_operation_surface : list string :=
  ["toggle_play"; "set_bpm"; "toggle_step"; "set_note"; "send_preset";
   "batch_update"; "get_midi_ports"; "change_midi_output";
   "change_midi_input"; "toggle_midi_clock"; "update_cc"].

Definition nullish (v : any) : Prop := v = VUndef \/ v = VNull.

(** A rendering for the numbers left to the parameter of [numberToString],
    used where the bridge is run on concrete inputs; those inputs are
    integers, which never reach it. *)
Definition no_rendering : Q -> string := fun _ => "?".

(** ** The cache, read

    Ways to look at a cached state, used to state what a [cc_update]
    does to it. *)

(** The value [cc_values] holds for a track and a key: own properties
    only. *)
Definition entry (t k : string) (ccv : object (object number)) : option number :=
  match own t ccv with
  | Some row => own k row
  | None => None
  end.




(** ** Traces of the event loop *)

(** A full snapshot ([type: "state"]) among the inbound messages. *)
Definition is_snapshot (ev : event) : bool :=
  match ev with
  | ws_message (MsgState _) => true
  | _ => false
  end.

(** The draws of [Math.random()] made by a sequence of events: one per
    [close], in order. *)
Fixpoint close_draws (evs : list event) : list Binary64.t :=
  match evs with
  | [] => []
  | ws_close random :: rest => random :: close_draws rest
  | _ :: rest => close_draws rest
  end.

(** What a command object looks like when it was built by the dispatcher
    or by a connection handler: for each command name, the fields its
    builder puts there after its validator has accepted the arguments.
    This is the object given to [JSON.stringify], not its text: a [row] or
    [col] may be an infinity, which the text renders as [null].
    [update_cc] is built by two cases of the dispatcher, one of which
    validates nothing: only its field names are fixed. *)
Inductive dispatched : WsCommand -> Prop :=
  | d_get_state : dispatched (mkCommand "get_state" [])
  | d_toggle_play : dispatched (mkCommand "toggle_play" [])
  | d_get_available_ports : dispatched (mkCommand "get_available_ports" [])
  | d_set_bpm (q : Q) :
      (60 <= q)%Q -> (q <= 300)%Q ->
      dispatched (mkCommand "set_bpm" [("bpm", VNum (Finite q))])
  | d_toggle_step (r c : number) :
      dispatched (mkCommand "toggle_step" [("row", VNum r); ("col", VNum c)])
  | d_set_note (r c : number) (q : Q) :
      (0 <= q)%Q -> (q <= 127)%Q ->
      dispatched (mkCommand "set_note"
                    [("row", VNum r); ("col", VNum c);
                     ("note", VNum (Finite q))])
  | d_set_note_divide (r c : number) (q : Q) (d : any) :
      (0 <= q)%Q -> (q <= 127)%Q -> divide_ok d ->
      dispatched (mkCommand "set_note"
                    [("row", VNum r); ("col", VNum c);
                     ("note", VNum (Finite q)); ("divide", d)])
  | d_send_preset (s : string) :
      dispatched (mkCommand "send_preset" [("preset", VStr s)])
  | d_batch_update (items : list any) :
      Forall matches_schema items ->
      dispatched (mkCommand "batch_update" [("updates", VArr items)])
  | d_change_midi_output (s : string) :
      dispatched (mkCommand "change_midi_output" [("port", VStr s)])
  | d_change_midi_input (s : string) :
      dispatched (mkCommand "change_midi_input" [("port", VStr s)])
  | d_toggle_midi_clock (b : bool) :
      dispatched (mkCommand "toggle_midi_clock" [("enabled", VBool b)])
  | d_update_cc (t c v : any) :
      dispatched (mkCommand "update_cc" [("track", t); ("cc", c); ("value", v)]).

(** An event that leaves the built-in objects as they are: any event but
    a [cc_update] whose track names a property of [Object.prototype].
    Such an update may add a property to a built-in object (to
    [Object.prototype] itself, for the track [__proto__]); property reads
    are then no longer those of [Get]. *)
Definition keeps_builtins (ev : event) : bool :=
  match ev with
  | ws_message (MsgCcUpdate u) => negb (inherited (track u))
  | _ => true
  end.

(** A double that [Math.random()] can return. *)
Definition unit_draw (r : Binary64.t) : Prop :=
  Binary64.valid r /\ (0 <= Binary64.to_Q r)%Q /\ (Binary64.to_Q r < 1)%Q.

(** A draw for the delay [5000 + k]: the double of exponent -53 just
    above [(k + 1/2) / 3000]. *)
Definition draw_for (k : Z) : Binary64.t :=
  Binary64.mk ((2 * k + 1) * 2 ^ 52 / 3000 + 1) (-53).

(** The connection flag as the transport events alone determine it. *)
Definition link (up : bool) (ev : event) : bool :=
  match ev with
  | ws_open _ => true
  | ws_close _ | ws_error => false
  | _ => up
  end.

(** The response [sendCommand] makes up for a command it has written. *)
Definition optimistic (cmd : WsCommand) : WsResponse :=
  mkResponse success (Some (VObj [("command", VStr (command cmd))])) None.

(** How a tool call can end: [r] is the pair of its outcome and of the
    server it leaves. *)
Inductive call_mode (env : send_outcome) (name : string) (srv : Server)
          (r : outcome rendered * Server) : Prop :=
  | mode_threw (e : js_error) :
      r = (Raised (mcp_internal e), srv) -> call_mode env name srv r
  | mode_invalid (m : string) :
      r = (Raised (mcp_error InvalidParams m), srv) -> call_mode env name srv r
  | mode_unknown :
      r = (Raised (mcp_error MethodNotFound ("Unknown tool: " +:+ name)), srv) ->
      ~ In name tools -> name <> "update_synth_param" ->
      call_mode env name srv r
  | mode_not_connected :
      Disconnected srv ->
      r = (Returned (Plain "Error: Not connected to mGB MIDI sequencer"), srv) ->
      call_mode env name srv r
  | mode_write_failed (e : thrown) :
      Connected srv -> env = SendThrows e ->
      r = (Returned (Plain ("Error: " +:+ ("Error sending command: " +:+ cause e))),
           srv) ->
      call_mode env name srv r
  | mode_written (t : rendered) (cmd : WsCommand) :
      Connected srv -> env = Written ->
      r = (Returned t, ws_send cmd srv) -> call_mode env name srv r
  | mode_unawaited (cmd : WsCommand) :
      name = "update_cc" \/ name = "update_synth_param" ->
      snd r = snd (sendCommand env cmd srv) ->
      (exists s, fst r = Returned (Plain s)) \/
      fst r = Raised (mcp_internal TypeError_to_primitive) ->
      call_mode env name srv r.

(** A non-empty run of the characters [0] to [9]. *)
Definition digits (s : string) : Prop :=
  s <> EmptyString /\
  Forall (fun c => (48 <= nat_of_ascii c <= 57)%nat) (list_ascii_of_string s).

(** ** Endpoint resolution ([getWebSocketAddress])

    What the function reads from the process and the file system is its
    input here: the environment variable, [config.json] after
    [JSON.parse], the three candidate log files, and the result of
    [os.networkInterfaces()].  A file is absent ([existsSync] false),
    present but failing to read, or present with its text (the bytes of
    its UTF-8 form). *)

Inductive file : Type :=
  | absent
  | unreadable
  | content (bytes : string).

(** [config.json]: absent, present but failing in [readFileSync] or
    [JSON.parse], or parsed. *)
Inductive config_file : Type :=
  | no_config
  | bad_config
  | config (parsed : any).

Record NetworkInterfaceInfo : Type := mkInterfaceInfo {
  address : string;
  family : string;
  internal : bool
}.

Record Environment : Type := mkEnvironment {
  WEBSOCKET_URL : option string;
  config_json : config_file;
  app_logs : list file;
    (* [app_log.txt] in the working directory, in its parent, and in the
       parent's [mGB-MIDI-Sequencer], in this order *)
  networkInterfaces : option (list (string * option (list NetworkInterfaceInfo)))
    (* [None]: the call throws *)
}.

(** [getLocalIpAddresses]: the addresses of the IPv4 entries that are not
    internal, interface by interface. *)
Definition getLocalIpAddresses
           (interfaces : list (string * option (list NetworkInterfaceInfo)))
  : list string :=
  flat_map
    (fun entry =>
       match snd entry with
       | None => []
       | Some iface =>
           map address
               (List.filter (fun details =>
                          String.eqb (family details) "IPv4" &&
                          negb (internal details)) iface)
       end)
    interfaces.

(** The text before the capture group of
    [/WebSocketサーバー: (ws:\/\/[0-9.]+:[0-9]+)/]. *)
Definition log_marker : string := "WebSocketサーバー: ".

Definition host_char (c : ascii) : bool := is_digit c || Ascii.eqb c ".".

Fixpoint strip_prefix (p s : string) : option string :=
  match p, s with
  | EmptyString, _ => Some s
  | String a p', String b s' => if Ascii.eqb a b then strip_prefix p' s' else None
  | String _ _, EmptyString => None
  end.

(** The longest prefix of [s] made of characters in [f], and the rest. *)
Fixpoint span (f : ascii -> bool) (s : string) : string * string :=
  match s with
  | EmptyString => (EmptyString, EmptyString)
  | String c rest =>
      if f c then let (taken, left) := span f rest in (String c taken, left)
      else (EmptyString, s)
  end.

Definition is_empty (s : string) : bool :=
  match s with EmptyString => true | _ => false end.

(** A match of the expression starting at the first character of [s]:
    the capture group.  Each of the two repetitions can only succeed with
    its longest run, the character after the first run having to be a
    colon. *)
Definition match_at (s : string) : option string :=
  match strip_prefix (log_marker +:+ "ws://") s with
  | None => None
  | Some after_scheme =>
      let (host, after_host) := span host_char after_scheme in
      if is_empty host then None else
      match after_host with
      | String c after_colon =>
          if Ascii.eqb c ":" then
            let (port, _) := span is_digit after_colon in
            if is_empty port then None
            else Some ("ws://" +:+ host +:+ ":" +:+ port)
          else None
      | EmptyString => None
      end
  end.

(** [logContent.match(...)]: the leftmost match, as its group 1. *)
Fixpoint log_match (s : string) : option string :=
  match match_at s with
  | Some found => Some found
  | None =>
      match s with
      | EmptyString => None
      | String _ rest => log_match rest
      end
  end.

(** The loop over [possibleLogPaths], inside one [try]: a read that
    throws ends the whole scan. *)
Fixpoint scan_logs (logs : list file) : option string :=
  match logs with
  | [] => None
  | absent :: rest => scan_logs rest
  | unreadable :: _ => None
  | content bytes :: rest =>
      match log_match bytes with
      | Some found => Some found
      | None => scan_logs rest
      end
  end.

(** [getWebSocketAddress].  The declared result type is [string]; the
    value taken from [config.json] is returned unchecked. *)
Definition getWebSocketAddress (env : Environment) : any :=
  let from_env :=
    match WEBSOCKET_URL env with
    | Some text => if String.eqb text EmptyString then None else Some (VStr text)
    | None => None
    end in
  match from_env with
  | Some v => v
  | None =>
      let from_config :=
        match config_json env with
        | config parsed =>
            match Get parsed "websocketUrl" with
            | Normal v => if truthy v then Some v else None
            | Throw _ => None
            end
        | _ => None
        end in
      match from_config with
      | Some v => v
      | None =>
          match scan_logs (app_logs env) with
          | Some found => VStr found
          | None =>
              match networkInterfaces env with
              | Some interfaces =>
                  match getLocalIpAddresses interfaces with
                  | ip :: _ => VStr ("ws://" +:+ ip +:+ ":8765")
                  | [] => VStr "ws://localhost:8765"
                  end
              | None => VStr "ws://localhost:8765"
              end
          end
      end
  end.

(** No usable [WEBSOCKET_URL]: unset, or set to the empty string. *)
Definition no_override (env : Environment) : Prop :=
  WEBSOCKET_URL env = None \/ WEBSOCKET_URL env = Some EmptyString.

(** No usable [websocketUrl] in [config.json]. *)
Definition no_config_url (env : Environment) : Prop :=
  match config_json env with
  | config parsed => nullish parsed \/ truthy (field parsed "websocketUrl") = false
  | _ => True
  end.

(** * Properties *)

(** ** Reading properties *)

Lemma Get_field (base : any) (k : string) :
  ~ nullish base -> Get base k = Normal (field base k).
Proof.
  unfold nullish. intros Hn.
  destruct base; simpl; try reflexivity; exfalso; apply Hn; auto.
Qed.

Lemma Get_nullish (base : any) (k : string) :
  nullish base -> Get base k = Throw (TypeError_read base k).
Proof. intros [-> | ->]; reflexivity. Qed.

Lemma Get_Normal_inv (base : any) (k : string) (v : any) :
  Get base k = Normal v -> ~ nullish base /\ v = field base k.
Proof.
  unfold nullish.
  destruct base; simpl; intros H; inversion H; subst;
    (split; [intros [E | E]; discriminate E | reflexivity]).
Qed.

(** ** Numbers against constants *)

Lemma in_range_spec (lo hi : Q) (v : any) :
  in_range lo hi v = true <->
  exists q, v = VNum (Finite q) /\ (lo <= q)%Q /\ (q <= hi)%Q.
Proof.
  unfold in_range, num_geb, num_leb. split.
  - destruct v as [| | |n| | |]; try discriminate.
    destruct n as [q| | |]; try discriminate.
    rewrite andb_true_iff, !Qle_bool_iff. intros [Hlo Hhi]. eauto.
  - intros (q & -> & Hlo & Hhi).
    rewrite andb_true_iff, !Qle_bool_iff. auto.
Qed.

Lemma typeof_number_spec (v : any) : typeof_number v = true <-> is_number v.
Proof.
  unfold is_number. destruct v; simpl; split;
    try discriminate; try (intros [n' E]; discriminate E); eauto.
Qed.

Lemma typeof_boolean_spec (v : any) : typeof_boolean v = true <-> is_boolean v.
Proof.
  unfold is_boolean. destruct v; simpl; split;
    try discriminate; try (intros [b' E]; discriminate E); eauto.
Qed.

Lemma is_note_spec (v : any) : is_note v = true <-> note_ok v.
Proof.
  unfold is_note, note_ok. rewrite andb_true_iff, in_range_spec. split.
  - intros [_ H]. exact H.
  - intros (q & -> & H). split; [reflexivity | eauto].
Qed.

Lemma includes_1_2_3_spec (v : any) : includes_1_2_3 v = true <-> divide_ok v.
Proof.
  unfold includes_1_2_3, divide_ok, num_eqb. split.
  - destruct v as [| | |n| | |]; try discriminate.
    destruct n as [q| | |]; try discriminate.
    rewrite !orb_true_iff, !Qeq_bool_iff. intros H. exists q. tauto.
  - intros (q & -> & H). rewrite !orb_true_iff, !Qeq_bool_iff. tauto.
Qed.

Lemma array_of_spec (f : any -> bool) (P : any -> Prop) :
  (forall x, f x = true <-> P x) ->
  forall v, array_of f v = true <-> array_with P v.
Proof.
  intros Hf v. unfold array_of, array_with. split.
  - destruct v as [| | | | |items|]; try discriminate.
    rewrite forallb_forall. intros H. exists items. split; [reflexivity|].
    apply List.Forall_forall. intros x Hx. apply Hf, H, Hx.
  - intros (items & -> & H). rewrite forallb_forall.
    intros x Hx. apply Hf. rewrite List.Forall_forall in H. apply H, Hx.
Qed.

(** ** [every] *)

Lemma every_true (f : any -> completion bool) (items : list any) :
  every f items = Normal true <-> Forall (fun x => f x = Normal true) items.
Proof.
  induction items as [|x rest IH]; simpl.
  - split; [constructor | reflexivity].
  - split.
    + destruct (f x) as [[|]|e] eqn:Hx; simpl; try discriminate.
      intros H. constructor; [exact Hx | apply IH, H].
    + intros H. inversion H as [|? ? Hx Hrest]; subst.
      rewrite Hx. simpl. apply IH, Hrest.
Qed.

Lemma every_total (f : any -> completion bool) (items : list any) :
  Forall (fun x => exists b, f x = Normal b) items ->
  exists b, every f items = Normal b.
Proof.
  induction 1 as [|x rest [b Hx] _ IH]; simpl.
  - eauto.
  - rewrite Hx. simpl. destruct b; eauto.
Qed.

(** ** The batch validator against the tabulated schema *)

Lemma field_not_nullish (base : any) (k : string) (v : any) :
  field base k = v -> v <> VUndef -> ~ nullish base.
Proof.
  unfold nullish. intros H Hv [-> | ->]; simpl in H; congruence.
Qed.

Lemma validTypes_inv (s : string) :
  existsb (String.eqb s) validTypes = true ->
  exists g a, s = variant_tag g a.
Proof.
  unfold validTypes. simpl. rewrite !orb_true_iff, !String.eqb_eq.
  intros [H|[H|[H|[H|[H|[H|[H|[H|[H|H]]]]]]]]]; try discriminate H; subst s.
  - exists per_cell, attr_state; reflexivity.
  - exists per_cell, attr_note; reflexivity.
  - exists per_cell, attr_divide; reflexivity.
  - exists per_row, attr_state; reflexivity.
  - exists per_row, attr_note; reflexivity.
  - exists per_row, attr_divide; reflexivity.
  - exists per_grid, attr_state; reflexivity.
  - exists per_grid, attr_note; reflexivity.
  - exists per_grid, attr_divide; reflexivity.
Qed.

Lemma variant_tag_valid (g : granularity) (a : attribute) :
  includes_str validTypes (VStr (variant_tag g a)) = true.
Proof. destruct g, a; reflexivity. Qed.

Lemma variant_tag_inj (g g' : granularity) (a a' : attribute) :
  variant_tag g a = variant_tag g' a' -> g = g' /\ a = a'.
Proof. destruct g, a, g', a'; simpl; intros H; try discriminate H; auto. Qed.

Lemma attribute_check_spec (a : attribute) (v : any) :
  attribute_check a v = true <-> attribute_ok a v.
Proof.
  destruct a; simpl;
    [apply typeof_boolean_spec | apply is_note_spec | apply includes_1_2_3_spec].
Qed.

(** [batch_case] at a valid tag, by granularity. *)
Lemma batch_case_tag (g : granularity) (a : attribute) (update : any) :
  batch_case (variant_tag g a) update =
  match g with
  | per_cell =>
      typeof_number (field update "row") && typeof_number (field update "col") &&
      attribute_check a (field update (payload_name g a))
  | per_row =>
      typeof_number (field update "row") &&
      array_of (attribute_check a) (field update (payload_name g a))
  | per_grid =>
      array_of (array_of (attribute_check a)) (field update (payload_name g a))
  end.
Proof. destruct g, a; reflexivity. Qed.

Lemma batch_case_spec (g : granularity) (a : attribute) (update : any) :
  batch_case (variant_tag g a) update = true <->
  coordinates_ok g update /\ payload_ok g a (field update (payload_name g a)).
Proof.
  rewrite batch_case_tag. destruct g; simpl.
  - rewrite !andb_true_iff, !typeof_number_spec, attribute_check_spec. tauto.
  - rewrite !andb_true_iff, typeof_number_spec.
    rewrite (array_of_spec _ _ (attribute_check_spec a)). tauto.
  - rewrite (array_of_spec _ _
               (array_of_spec _ _ (attribute_check_spec a))). tauto.
Qed.

Lemma isBatchUpdate_spec (update : any) :
  isBatchUpdate update = Normal true <-> matches_schema update.
Proof.
  unfold isBatchUpdate, matches_schema. split.
  - destruct (Get update "type") as [ty|e] eqn:Hty; simpl; [|discriminate].
    apply Get_Normal_inv in Hty as [_ ->].
    destruct (includes_str validTypes (field update "type")) eqn:Hin;
      simpl; [|discriminate].
    destruct (field update "type") as [| | | |s| |] eqn:Hf; try discriminate Hin.
    apply validTypes_inv in Hin as (g & a & ->).
    intros H. injection H as H. apply batch_case_spec in H.
    exists g, a. tauto.
  - intros (g & a & Hty & Hc & Hp).
    rewrite Get_field by (eapply field_not_nullish; [exact Hty | discriminate]).
    simpl. rewrite Hty, variant_tag_valid. simpl.
    f_equal. apply batch_case_spec. tauto.
Qed.

Lemma isBatchUpdateArgs_spec (args : any) :
  isBatchUpdateArgs args = Normal true <->
  exists items, field args "updates" = VArr items /\ Forall matches_schema items.
Proof.
  unfold isBatchUpdateArgs. split.
  - destruct (Get args "updates") as [u|e] eqn:Hu; simpl; [|discriminate].
    apply Get_Normal_inv in Hu as [_ ->].
    destruct (field args "updates") as [| | | | |items|]; try discriminate.
    intros H. exists items. split; [reflexivity|].
    apply every_true in H. eapply List.Forall_impl; [| exact H].
    intros x Hx. apply isBatchUpdate_spec, Hx.
  - intros (items & Hf & Hall).
    rewrite Get_field by (eapply field_not_nullish; [exact Hf | discriminate]).
    simpl. rewrite Hf. apply every_true.
    eapply List.Forall_impl; [| exact Hall].
    intros x Hx. apply isBatchUpdate_spec, Hx.
Qed.

(** ** The reconnect delay *)

Module Binary64Facts.

Import Binary64.
Local Open Scope Z_scope.

Lemma shr_rne_cases (m s : Z) :
  0 < s ->
  shr_rne m s = m / 2 ^ s \/
  (shr_rne m s = m / 2 ^ s + 1 /\ 2 ^ (s - 1) <= m mod 2 ^ s).
Proof.
  intros Hs. unfold shr_rne.
  rewrite Z.shiftr_div_pow2, Z.shiftl_mul_pow2 by lia.
  replace (m - m / 2 ^ s * 2 ^ s) with (m mod 2 ^ s)
    by (rewrite Z.mod_eq by (apply Z.pow_nonzero; lia); lia).
  destruct (Z.eqb_spec s 0) as [E|_]; [lia|].
  destruct (Z.ltb_spec (m mod 2 ^ s) (2 ^ (s - 1))) as [_|Hge]; [left; reflexivity|].
  destruct (Z.ltb_spec (2 ^ (s - 1)) (m mod 2 ^ s)) as [_|_]; [right; auto|].
  destruct (Z.even (m / 2 ^ s)); [left; reflexivity | right; auto].
Qed.

Lemma shr_rne_nonneg (m s : Z) : 0 <= m -> 0 <= s -> 0 <= shr_rne m s.
Proof.
  intros Hm Hs. destruct (Z.eq_dec s 0) as [->|Hne].
  - unfold shr_rne. simpl. exact Hm.
  - assert (0 <= m / 2 ^ s) by (apply Z.div_pos; [lia | apply Z.pow_pos_nonneg; lia]).
    destruct (shr_rne_cases m s) as [-> | [-> _]]; lia.
Qed.

(** Rounding [n = 3000 * m] to 53 bits stays below the next multiple of
    [2^s] under [3000 * 2^k], when [m < 2^k]. *)
Lemma shr_rne_below (n s p : Z) :
  0 < s <= 12 -> 0 < p -> 0 <= n <= 3000 * p * 2 ^ s - 3000 ->
  shr_rne n s <= 3000 * p - 1.
Proof.
  intros Hs Hp Hn.
  assert (Ht : 2 <= 2 ^ s <= 4096).
  { split.
    - change 2 with (2 ^ 1) at 1. apply Z.pow_le_mono_r; lia.
    - change 4096 with (2 ^ 12). apply Z.pow_le_mono_r; lia. }
  assert (Hhalf : 2 ^ s = 2 * 2 ^ (s - 1)).
  { replace s with (1 + (s - 1)) at 1 by lia.
    rewrite Z.pow_add_r by lia. reflexivity. }
  pose proof (Z.div_mod n (2 ^ s) ltac:(lia)) as Hdm.
  pose proof (Z.mod_pos_bound n (2 ^ s) ltac:(lia)) as Hr.
  pose proof (shr_rne_cases n s ltac:(lia)) as Hcases.
  remember (shr_rne n s) as r eqn:Er.
  remember (n / 2 ^ s) as q eqn:Eq.
  remember (n mod 2 ^ s) as d eqn:Ed.
  remember (2 ^ (s - 1)) as h eqn:Eh.
  remember (2 ^ s) as T eqn:ET.
  clear Er Eq Ed Eh ET.
  assert (Hq : q <= 3000 * p - 1).
  { assert (q < 3000 * p); [|lia].
    apply (Z.mul_lt_mono_pos_l T); [lia|].
    replace (T * (3000 * p)) with (3000 * p * T) by ring. lia. }
  destruct Hcases as [-> | [-> Hge]]; [exact Hq|].
  destruct (Z.eq_dec q (3000 * p - 1)) as [E|E]; [|lia].
  exfalso. rewrite E in Hdm.
  assert (T * (3000 * p - 1) = 3000 * p * T - T) by ring.
  lia.
Qed.

Lemma unit_interval (x : t) :
  (0 <= to_Q x)%Q -> (to_Q x < 1)%Q ->
  mant x = 0 \/ (0 < mant x /\ expo x < 0 /\ mant x < 2 ^ (- expo x)).
Proof.
  unfold to_Q. destruct x as [m e]. simpl.
  destruct (Z.leb_spec 0 e) as [He|He].
  - unfold Qle, Qlt. simpl. rewrite !Z.mul_1_r.
    assert (0 < 2 ^ e) by (apply Z.pow_pos_nonneg; lia).
    intros H0 H1. left. nia.
  - unfold Qle, Qlt. simpl. rewrite !Z.mul_1_r.
    assert (Hp : 0 < 2 ^ (- e)) by (apply Z.pow_pos_nonneg; lia).
    rewrite Z2Pos.id by exact Hp.
    intros H0 H1. destruct (Z.eq_dec m 0); [left; assumption | right; lia].
Qed.

Lemma floor_mul_3000 (x : t) :
  valid x -> (0 <= to_Q x)%Q -> (to_Q x < 1)%Q ->
  0 <= floor (mul x (of_Z 3000)) <= 2999.
Proof.
  intros [Hm He] H0 H1.
  destruct (unit_interval x H0 H1) as [Hz | (Hpos & Hneg & Hlt)].
  - destruct x as [m e]. simpl in *. subst m.
    unfold mul, of_Z, floor, round. simpl mant. simpl expo.
    change (0 * 3000 <? 0) with false. cbv iota. simpl mant. simpl expo.
    replace (Z.max 0 (Z.max (0 + 1 - 53) (-1074 - (e + 0)))) with 0 by lia.
    change (shr_rne 0 0) with 0. rewrite Z.shiftl_0_l. lia.
  - destruct x as [m e]. simpl in *.
    unfold mul, of_Z, floor, round. simpl mant. simpl expo.
    set (n := m * 3000).
    destruct (Z.ltb_spec n 0) as [Hn|_]; [lia|]. simpl mant. simpl expo.
    rewrite Z.add_0_r.
    set (k := - e) in *.
    assert (Hk : 0 < 2 ^ k) by (apply Z.pow_pos_nonneg; lia).
    assert (Hnpos : 0 < n) by lia.
    assert (Hlog : Z.log2 n < 65).
    { apply Z.log2_lt_pow2; [lia|]. change (2 ^ 65) with (2 ^ 53 * 4096). lia. }
    assert (Hlogk : Z.log2 n < 12 + k).
    { apply Z.log2_lt_pow2; [lia|]. rewrite Z.pow_add_r by lia.
      change (2 ^ 12) with 4096. lia. }
    destruct (Z_le_gt_dec (Z.log2 n) 52) as [Hsmall|Hbig].
    + replace (Z.max 0 (Z.max (Z.log2 n + 1 - 53) (-1074 - e))) with 0 by lia.
      unfold shr_rne. simpl. rewrite Z.add_0_r.
      replace e with (- k) by lia.
      rewrite Z.shiftl_opp_r, Z.shiftr_div_pow2 by lia.
      split.
      * apply Z.div_pos; lia.
      * apply Z.lt_succ_r. apply Z.div_lt_upper_bound; lia.
    + set (s := Z.log2 n - 52).
      replace (Z.max 0 (Z.max (Z.log2 n + 1 - 53) (-1074 - e))) with s by lia.
      assert (Hs : 0 < s <= 12) by lia.
      assert (Hks : 0 < k - s) by lia.
      set (p := 2 ^ (k - s)).
      assert (Hp : 0 < p) by (apply Z.pow_pos_nonneg; lia).
      assert (Hpk : 2 ^ k = p * 2 ^ s).
      { unfold p. rewrite <- Z.pow_add_r by lia. f_equal. lia. }
      assert (Hn : 0 <= n <= 3000 * p * 2 ^ s - 3000).
      { rewrite Hpk in Hlt. unfold n.
        replace (3000 * p * 2 ^ s) with (3000 * (p * 2 ^ s)) by ring. lia. }
      pose proof (shr_rne_below n s p Hs Hp Hn) as Hup.
      pose proof (shr_rne_nonneg n s ltac:(lia) ltac:(lia)) as Hlo.
      replace (e + s) with (- (k - s)) by lia.
      rewrite Z.shiftl_opp_r, Z.shiftr_div_pow2 by lia. fold p.
      split.
      * apply Z.div_pos; lia.
      * apply Z.lt_succ_r. apply Z.div_lt_upper_bound; lia.
Qed.

(** The exact floor of [3000 * x], against the floor of the rounded
    product: rounding is monotone and keeps integers, so the two agree
    unless the product rounds up to the next integer. *)
Lemma Qfloor_mul_3000 (m k : Z) :
  0 < 2 ^ k ->
  Qfloor (inject_Z 3000 * Qmake m (Z.to_pos (2 ^ k))) = (m * 3000) / 2 ^ k.
Proof.
  intros Hk. unfold Qfloor, Qmult, inject_Z. simpl Qnum. simpl Qden.
  rewrite Pos.mul_1_l, Z2Pos.id by exact Hk.
  f_equal. ring.
Qed.

Lemma floor_mul_3000_exact (x : t) :
  valid x -> (0 <= to_Q x)%Q -> (to_Q x < 1)%Q ->
  Qfloor (inject_Z 3000 * to_Q x) <= floor (mul x (of_Z 3000))
    <= Qfloor (inject_Z 3000 * to_Q x) + 1.
Proof.
  intros [Hm He] H0 H1.
  destruct (unit_interval x H0 H1) as [Hz | (Hpos & Hneg & Hlt)].
  - destruct x as [m e]. cbn [mant expo] in *. subst m.
    assert (Hq : Qfloor (inject_Z 3000 * to_Q (mk 0 e)) = 0).
    { unfold to_Q. simpl mant. simpl expo.
      destruct (0 <=? e); reflexivity. }
    rewrite Hq.
    unfold mul, of_Z, floor, round. simpl mant. simpl expo.
    change (0 * 3000 <? 0) with false. cbv iota. simpl mant. simpl expo.
    replace (Z.max 0 (Z.max (0 + 1 - 53) (-1074 - (e + 0)))) with 0 by lia.
    change (shr_rne 0 0) with 0. rewrite Z.shiftl_0_l. lia.
  - destruct x as [m e]. cbn [mant expo] in *.
    set (k := - e) in *.
    assert (Hk : 0 < 2 ^ k) by (apply Z.pow_pos_nonneg; lia).
    assert (Hq : Qfloor (inject_Z 3000 * to_Q (mk m e)) = (m * 3000) / 2 ^ k).
    { unfold to_Q. simpl mant. simpl expo.
      destruct (Z.leb_spec 0 e) as [Hge|_]; [lia|].
      apply Qfloor_mul_3000, Hk. }
    rewrite Hq.
    unfold mul, of_Z, floor, round. simpl mant. simpl expo.
    set (n := m * 3000).
    destruct (Z.ltb_spec n 0) as [Hn|_]; [lia|]. simpl mant. simpl expo.
    rewrite Z.add_0_r.
    assert (Hnpos : 0 < n) by lia.
    assert (Hlogk : Z.log2 n < 12 + k).
    { apply Z.log2_lt_pow2; [lia|]. rewrite Z.pow_add_r by lia.
      change (2 ^ 12) with 4096. lia. }
    assert (Hlog : Z.log2 n < 65).
    { apply Z.log2_lt_pow2; [lia|]. change (2 ^ 65) with (2 ^ 53 * 4096). lia. }
    destruct (Z_le_gt_dec (Z.log2 n) 52) as [Hsmall|Hbig].
    + replace (Z.max 0 (Z.max (Z.log2 n + 1 - 53) (-1074 - e))) with 0 by lia.
      unfold shr_rne. simpl. rewrite Z.add_0_r.
      replace e with (- k) by lia.
      rewrite Z.shiftl_opp_r, Z.shiftr_div_pow2 by lia. lia.
    + set (s := Z.log2 n - 52).
      replace (Z.max 0 (Z.max (Z.log2 n + 1 - 53) (-1074 - e))) with s by lia.
      assert (Hs : 0 < s <= 12) by lia.
      assert (Hks : 0 < k - s) by lia.
      set (p := 2 ^ (k - s)).
      assert (Hp : 0 < p) by (apply Z.pow_pos_nonneg; lia).
      assert (Hs2 : 0 < 2 ^ s) by (apply Z.pow_pos_nonneg; lia).
      assert (Hpk : 2 ^ k = 2 ^ s * p).
      { unfold p. rewrite <- Z.pow_add_r by lia. f_equal. lia. }
      replace (e + s) with (- (k - s)) by lia.
      rewrite Z.shiftl_opp_r, Z.shiftr_div_pow2 by lia. fold p.
      rewrite Hpk, <- Z.div_div by lia.
      set (q := n / 2 ^ s).
      assert (Hup : (q + 1) / p <= q / p + 1).
      { replace (q + 1) with (q + 1 * 1) by ring.
        assert ((q + 1 * 1) / p <= (q + 1 * p) / p)
          by (apply Z.div_le_mono; lia).
        rewrite Z.div_add in H by lia. exact H. }
      destruct (shr_rne_cases n s ltac:(lia)) as [-> | [-> _]]; fold q.
      * lia.
      * split; [apply Z.div_le_mono; lia | exact Hup].
Qed.

End Binary64Facts.

Lemma reconnectDelay_bounds (random : Binary64.t) :
  Binary64.valid random ->
  (0 <= Binary64.to_Q random)%Q -> (Binary64.to_Q random < 1)%Q ->
  (5000 <= reconnectDelay random < 8000)%Z.
Proof.
  intros Hv H0 H1. unfold reconnectDelay.
  pose proof (Binary64Facts.floor_mul_3000 random Hv H0 H1). lia.
Qed.

Lemma reconnectDelay_exact (random : Binary64.t) :
  Binary64.valid random ->
  (0 <= Binary64.to_Q random)%Q -> (Binary64.to_Q random < 1)%Q ->
  (5000 + Qfloor (inject_Z 3000 * Binary64.to_Q random) <= reconnectDelay random
   <= 5000 + Qfloor (inject_Z 3000 * Binary64.to_Q random) + 1)%Z.
Proof.
  intros Hv H0 H1. unfold reconnectDelay.
  pose proof (Binary64Facts.floor_mul_3000_exact random Hv H0 H1). lia.
Qed.

(** Every delay from 5000 to 7999 is the delay of some draw. *)
Lemma draw_for_checked :
  forallb (fun k => (reconnectDelay (draw_for k) =? 5000 + k)%Z &&
                    (0 <=? Binary64.mant (draw_for k))%Z &&
                    (Binary64.mant (draw_for k) <? 2 ^ 53)%Z)
          (map Z.of_nat (seq 0 3000)) = true.
Proof. vm_compute. reflexivity. Qed.

Lemma draw_for_delay (k : Z) :
  (0 <= k < 3000)%Z ->
  unit_draw (draw_for k) /\ reconnectDelay (draw_for k) = (5000 + k)%Z.
Proof.
  intros Hk.
  assert (Hin : In k (map Z.of_nat (seq 0 3000))).
  { apply in_map_iff. exists (Z.to_nat k). split; [lia|].
    apply in_seq. lia. }
  pose proof (proj1 (forallb_forall _ _) draw_for_checked k Hin) as H.
  rewrite !andb_true_iff in H. destruct H as [[Hd H0] H1].
  apply Z.eqb_eq in Hd. apply Z.leb_le in H0. apply Z.ltb_lt in H1.
  split; [|exact Hd].
  unfold unit_draw, Binary64.valid, Binary64.to_Q.
  change (Binary64.expo (draw_for k)) with (-53)%Z.
  remember (Binary64.mant (draw_for k)) as m eqn:Em. clear Em Hd Hin.
  change (0 <=? -53)%Z with false. cbv iota.
  unfold Qle, Qlt. simpl Qnum. simpl Qden.
  change (Z.pos (Z.to_pos (2 ^ (- -53)))) with (2 ^ 53)%Z.
  lia.
Qed.

(** ** [sendCommand] *)

Lemma sendCommand_Connected (env : send_outcome) (cmd : WsCommand) (srv : Server) :
  Connected srv ->
  sendCommand env cmd srv =
  match env with
  | Written =>
      (Resolved (mkResponse success
                   (Some (VObj [("command", VStr (command cmd))])) None),
       ws_send cmd srv)
  | SendThrows e =>
      (Resolved (mkResponse error None
                   (Some ("Error sending command: " +:+ cause e))), srv)
  end.
Proof.
  intros [Hc Hw]. unfold sendCommand. rewrite Hc.
  destruct (wsClient srv); [reflexivity | congruence].
Qed.

Lemma sendCommand_Disconnected (env : send_outcome) (cmd : WsCommand) (srv : Server) :
  Disconnected srv ->
  sendCommand env cmd srv =
  (Resolved (mkResponse error None (Some "Not connected to mGB MIDI sequencer")),
   srv).
Proof.
  intros [Hc | Hw]; unfold sendCommand.
  - rewrite Hc. reflexivity.
  - rewrite Hw. simpl. rewrite orb_true_r. reflexivity.
Qed.

Lemma Connected_or_Disconnected (srv : Server) : Connected srv \/ Disconnected srv.
Proof.
  unfold Connected, Disconnected.
  destruct (isConnected srv), (wsClient srv);
    first [left; split; [reflexivity | discriminate] | right; auto].
Qed.

(** The promise of [sendCommand] is always fulfilled, and the server
    changes by at most one write. *)
Lemma sendCommand_cases (env : send_outcome) (cmd : WsCommand) (srv : Server) :
  exists r, fst (sendCommand env cmd srv) = Resolved r /\
    ((status r = success /\ snd (sendCommand env cmd srv) = ws_send cmd srv) \/
     (status r = error /\ message r <> None /\ message r <> Some EmptyString /\
      snd (sendCommand env cmd srv) = srv)).
Proof.
  destruct (Connected_or_Disconnected srv) as [H | H].
  - rewrite (sendCommand_Connected env cmd srv H). destruct env as [|e]; simpl.
    + eexists. split; [reflexivity | left; auto].
    + eexists. split; [reflexivity | right]. simpl.
      repeat split; discriminate.
  - rewrite (sendCommand_Disconnected env cmd srv H). simpl.
    eexists. split; [reflexivity | right]. simpl. repeat split; discriminate.
Qed.

Lemma sendCommand_frame (env : send_outcome) (cmd : WsCommand) (srv : Server) :
  let srv' := snd (sendCommand env cmd srv) in
  wsClient srv' = wsClient srv /\ currentState srv' = currentState srv /\
  isConnected srv' = isConnected srv /\ timers srv' = timers srv /\
  (transport srv' = transport srv \/
   transport srv' = (transport srv ++ [cmd])%list).
Proof.
  destruct (sendCommand_cases env cmd srv) as (r & _ & [[_ ->] | (_ & _ & _ & ->)]);
    simpl; auto 10.
Qed.


(** ** Request handlers leave the module variables alone *)

Section Frames.

Variable render : Q -> string.

Lemma unchanged_refl (srv : Server) : unchanged_but_transport srv srv.
Proof. repeat split. Qed.

Lemma sendCommand_unchanged (env : send_outcome) (cmd : WsCommand) (srv : Server) :
  unchanged_but_transport srv (snd (sendCommand env cmd srv)).
Proof.
  pose proof (sendCommand_frame env cmd srv) as H. simpl in H.
  unfold unchanged_but_transport. tauto.
Qed.

Lemma awaited_unchanged (env : send_outcome) (cmd : WsCommand)
      (k : WsResponse -> completion string) (srv : Server) :
  unchanged_but_transport srv (snd (awaited env cmd k srv)).
Proof.
  unfold awaited. pose proof (sendCommand_unchanged env cmd srv) as H.
  destruct (sendCommand env cmd srv) as [p srv']. simpl in H.
  destruct p as [r|e]; [destruct (status r)|]; exact H.
Qed.

Lemma validated_unchanged (verdict : completion bool) (invalid : string)
      (k : Server -> outcome rendered * Server) (srv : Server) :
  (forall s, unchanged_but_transport s (snd (k s))) ->
  unchanged_but_transport srv (snd (validated verdict invalid k srv)).
Proof.
  intros Hk. unfold validated.
  destruct verdict as [[|]|e]; simpl; auto using unchanged_refl.
Qed.

Lemma callTool_unchanged (env : send_outcome) (name : string) (args : any)
      (srv : Server) :
  unchanged_but_transport srv (snd (callTool render env name args srv)).
Proof.
  unfold callTool.
  repeat match goal with
         | |- context [if ?b then _ else _] => destruct b
         end;
    try (apply validated_unchanged; intros s);
    try apply awaited_unchanged;
    try apply unchanged_refl.
  - unfold tool_get_midi_ports.
    pose proof (sendCommand_unchanged env (mkCommand "get_available_ports" []) srv) as H.
    destruct (sendCommand env _ srv) as [p srv']. simpl in H.
    destruct p as [r|e]; [destruct (status r)|]; exact H.
  - simpl. apply sendCommand_unchanged.
  - unfold tool_update_synth_param.
    destruct (Get args "track"); simpl;
      [apply sendCommand_unchanged | apply unchanged_refl].
Qed.

Lemma readResource_unchanged (env : send_outcome) (u : string) (srv : Server) :
  unchanged_but_transport srv (snd (readResource env u srv)).
Proof.
  unfold readResource.
  destruct (negb (u =? "mgb://state")%string); [apply unchanged_refl|].
  destruct (currentState srv); [apply unchanged_refl|].
  pose proof (sendCommand_unchanged env (mkCommand "get_state" []) srv) as H.
  destruct (sendCommand env _ srv) as [p srv']. simpl in H.
  destruct p as [r|e]; [destruct (status r); [destruct (currentState srv')|]|];
    exact H.
Qed.

(** Once the constructor has run, [wsClient] is never [null] again: on a
    state the server can be in, the flag [isConnected] alone decides
    between the two branches of [sendCommand]. *)
Lemma step_wsClient (srv : Server) (ev : event) :
  wsClient srv <> None -> wsClient (step render srv ev) <> None.
Proof.
  intros H. destruct ev; simpl.
  - unfold on_open.
    destruct (sendCommand_unchanged env (mkCommand "get_state" [])
                (set_isConnected true srv)) as [-> _]. exact H.
  - destruct m; exact H.
  - exact H.
  - exact H.
  - discriminate.
  - destruct (callTool_unchanged env name args srv) as [-> _]. exact H.
  - destruct (readResource_unchanged env u srv) as [-> _]. exact H.
Qed.

Lemma run_wsClient (evs : list event) : wsClient (run render evs) <> None.
Proof.
  unfold run. assert (H : wsClient boot <> None) by discriminate.
  revert H. generalize boot. induction evs as [|ev evs IH]; intros srv H.
  - exact H.
  - simpl. apply IH, step_wsClient, H.
Qed.

Lemma run_Connected (evs : list event) :
  isConnected (run render evs) = true -> Connected (run render evs).
Proof. intros H. split; [exact H | apply run_wsClient]. Qed.

End Frames.

(** * The claims *)

(** ** Optimistic send *)

(** C1, as stated, fails in its last part: when the write throws, the
    message of the response is not the cause itself.  A write that throws
    [new Error("socket closed")] is answered with the message
    ["Error sending command: socket closed"]. *)
Lemma sendCommand_message_is_prefixed :
  let srv := on_open Written boot in
  let response :=
    fst (sendCommand (SendThrows (an_Error "socket closed"))
           (mkCommand "toggle_play" []) srv) in
  Connected srv /\
  response =
    Resolved (mkResponse error None
                (Some "Error sending command: socket closed")) /\
  response <> Resolved (mkResponse error None (Some "socket closed")).
Proof.
  split; [split; [reflexivity | discriminate]|].
  split; [reflexivity | discriminate].
Qed.

(** C1, amended.  On a connected server, when the local write does not
    throw, [sendCommand] fulfils its promise in the same turn with
    [{status: "success", data: {command: <name>}}] and hands the command
    to the transport; when the write throws, it fulfils the promise with
    [{status: "error"}] and writes nothing, the message being
    ["Error sending command: "] followed by the cause: [e.message] when an
    [Error] was thrown, [String(e)] for any other value.  The response does
    not depend on inbound messages: processing any message first leaves it
    the same. *)
Theorem sendCommand_optimistic :
  forall (render : Q -> string) (srv : Server) (cmd : WsCommand),
    Connected srv ->
    sendCommand Written cmd srv =
      (Resolved (mkResponse success
                   (Some (VObj [("command", VStr (command cmd))])) None),
       ws_send cmd srv) /\
    (forall e_message : string,
        sendCommand (SendThrows (an_Error e_message)) cmd srv =
          (Resolved (mkResponse error None
                       (Some ("Error sending command: " +:+ e_message))),
           srv)) /\
    (forall String_e : string,
        sendCommand (SendThrows (a_value String_e)) cmd srv =
          (Resolved (mkResponse error None
                       (Some ("Error sending command: " +:+ String_e))),
           srv)) /\
    (forall (env : send_outcome) (m : inbound),
        fst (sendCommand env cmd (on_message render m srv)) =
        fst (sendCommand env cmd srv)).
Proof.
  intros render srv cmd Hc. split; [|split; [|split]].
  - apply (sendCommand_Connected Written), Hc.
  - intros e. apply (sendCommand_Connected (SendThrows (an_Error e))), Hc.
  - intros e. apply (sendCommand_Connected (SendThrows (a_value e))), Hc.
  - intros env m.
    assert (Hc' : Connected (on_message render m srv)).
    { destruct Hc as [H1 H2]. destruct m; split; assumption. }
    rewrite (sendCommand_Connected env cmd _ Hc').
    rewrite (sendCommand_Connected env cmd _ Hc).
    destruct env; reflexivity.
Qed.

(** The scenario of the specification: [toggle_step(row = 0, col = 3)]
    on a server whose socket has opened, when the write succeeds, when it
    throws an [Error] and when it throws a string. *)
Lemma sendCommand_optimistic_witness :
  let srv := on_open Written boot in
  let cmd := mkCommand "toggle_step" [("row", VNum 0%Q); ("col", VNum 3%Q)] in
  Connected srv /\
  sendCommand Written cmd srv =
    (Resolved (mkResponse success (Some (VObj [("command", VStr "toggle_step")]))
                 None),
     ws_send cmd srv) /\
  sendCommand (SendThrows (an_Error "WebSocket is not open")) cmd srv =
    (Resolved (mkResponse error None
                 (Some "Error sending command: WebSocket is not open")),
     srv) /\
  sendCommand (SendThrows (a_value "ECONNRESET")) cmd srv =
    (Resolved (mkResponse error None
                 (Some "Error sending command: ECONNRESET")),
     srv).
Proof.
  intros srv cmd.
  assert (H : Connected srv) by (split; [reflexivity | discriminate]).
  split; [exact H|].
  destruct (sendCommand_optimistic no_rendering srv cmd H)
    as (Hok & Herr & Hval & _).
  split; [exact Hok|].
  split; [exact (Herr "WebSocket is not open") | exact (Hval "ECONNRESET")].
Defined.

(** C2.  On a disconnected server ([isConnected] false, or no socket),
    [sendCommand] fulfils its promise at once with [{status: "error"}] and
    the message ["Not connected to mGB MIDI sequencer"], whatever the
    command and whatever the transport would do with a write; it never
    rejects, and it leaves the server, hence the transport log, as it
    was. *)
Theorem sendCommand_not_connected :
  forall (env : send_outcome) (cmd : WsCommand) (srv : Server),
    Disconnected srv ->
    exists msg : string,
      sendCommand env cmd srv =
        (Resolved (mkResponse error None (Some msg)), srv) /\
      msg = "Not connected to mGB MIDI sequencer" /\
      String.prefix "Not connected" msg = true /\
      transport (snd (sendCommand env cmd srv)) = transport srv.
Proof.
  intros env cmd srv H.
  exists "Not connected to mGB MIDI sequencer".
  rewrite (sendCommand_Disconnected env cmd srv H).
  repeat split.
Qed.

(** A [toggle_play] before the socket has opened. *)
Lemma sendCommand_not_connected_witness :
  Disconnected boot /\
  exists msg : string,
    sendCommand Written (mkCommand "toggle_play" []) boot =
      (Resolved (mkResponse error None (Some msg)), boot) /\
    msg = "Not connected to mGB MIDI sequencer".
Proof.
  assert (H : Disconnected boot) by (left; reflexivity).
  split; [exact H|].
  destruct (sendCommand_not_connected Written (mkCommand "toggle_play" [])
              boot H) as (msg & Hsend & Hmsg & _).
  exists msg. split; [exact Hsend | exact Hmsg].
Defined.

(** ** Validators *)

(** C9.  [isSetBpmArgs] accepts a numeric [bpm] exactly when
    [60 <= bpm <= 300]: 60 and 300 are accepted, 59 and 301 rejected. *)
Theorem isSetBpmArgs_bounds :
  (forall (n : number) (others : list (string * any)),
      isSetBpmArgs (VObj (("bpm", VNum n) :: others)) = Normal true <->
      exists q, n = Finite q /\ (60 <= q)%Q /\ (q <= 300)%Q) /\
  isSetBpmArgs (VObj [("bpm", VNum 60%Q)]) = Normal true /\
  isSetBpmArgs (VObj [("bpm", VNum 300%Q)]) = Normal true /\
  isSetBpmArgs (VObj [("bpm", VNum 59%Q)]) = Normal false /\
  isSetBpmArgs (VObj [("bpm", VNum 301%Q)]) = Normal false.
Proof.
  split; [|repeat split].
  intros n others.
  change (isSetBpmArgs (VObj (("bpm", VNum n) :: others)))
    with (Normal (in_range 60 300 (VNum n))).
  split.
  - intros H.
    assert (H' : in_range 60 300 (VNum n) = true) by congruence.
    apply in_range_spec in H' as (q & E & Hq). injection E as ->. eauto.
  - intros (q & -> & Hq). f_equal.
    apply (proj2 (in_range_spec 60 300 (VNum (Finite q)))). eauto.
Qed.

(** C5, as stated, fails: every validator reads a property of its
    argument first, which throws on [undefined] (an absent [arguments]
    field) and on [null]; [isBatchUpdateArgs] also throws on a [null]
    item.  A [set_bpm] call without arguments ends with the dispatcher's
    [InternalError]. *)
Lemma validators_throw_on_undefined :
  isSetBpmArgs VUndef = Throw (TypeError_read VUndef "bpm") /\
  isToggleStepArgs VUndef = Throw (TypeError_read VUndef "row") /\
  isSetNoteArgs VUndef = Throw (TypeError_read VUndef "divide") /\
  isBatchUpdateArgs VUndef = Throw (TypeError_read VUndef "updates") /\
  isSendPresetArgs VUndef = Throw (TypeError_read VUndef "preset") /\
  isChangeMidiOutputArgs VUndef = Throw (TypeError_read VUndef "port") /\
  isChangeMidiInputArgs VUndef = Throw (TypeError_read VUndef "port") /\
  isToggleMidiClockArgs VUndef = Throw (TypeError_read VUndef "enabled") /\
  isUpdateCcArgs VUndef = Throw (TypeError_read VUndef "track") /\
  isSetBpmArgs VNull = Throw (TypeError_read VNull "bpm") /\
  isToggleStepArgs VNull = Throw (TypeError_read VNull "row") /\
  isSetNoteArgs VNull = Throw (TypeError_read VNull "divide") /\
  isBatchUpdateArgs VNull = Throw (TypeError_read VNull "updates") /\
  isSendPresetArgs VNull = Throw (TypeError_read VNull "preset") /\
  isChangeMidiOutputArgs VNull = Throw (TypeError_read VNull "port") /\
  isChangeMidiInputArgs VNull = Throw (TypeError_read VNull "port") /\
  isToggleMidiClockArgs VNull = Throw (TypeError_read VNull "enabled") /\
  isUpdateCcArgs VNull = Throw (TypeError_read VNull "track") /\
  isBatchUpdateArgs (VObj [("updates", VArr [VNull])]) =
    Throw (TypeError_read VNull "type") /\
  callTool no_rendering Written "set_bpm" VUndef (on_open Written boot) =
    (Raised (mcp_internal (TypeError_read VUndef "bpm")), on_open Written boot) /\
  code (mcp_internal (TypeError_read VUndef "bpm")) = InternalError.
Proof. repeat split. Qed.

Lemma isBatchUpdate_total (update : any) :
  ~ nullish update -> exists b, isBatchUpdate update = Normal b.
Proof.
  intros H. unfold isBatchUpdate. rewrite (Get_field _ _ H). simpl.
  destruct (negb (includes_str validTypes (field update "type"))); [eauto|].
  destruct (field update "type"); eauto.
Qed.

Lemma isBatchUpdate_Throw (update : any) (e : js_error) :
  isBatchUpdate update = Throw e <->
  nullish update /\ e = TypeError_read update "type".
Proof.
  split.
  - intros H.
    assert (Hn : nullish update).
    { destruct update as [| | b| n| s| l| ps];
        try (left; reflexivity); try (right; reflexivity);
        (match type of H with isBatchUpdate ?x = _ =>
           destruct (isBatchUpdate_total x) as [b' Hb];
             [intros [E|E]; discriminate E | rewrite Hb in H; discriminate H]
         end). }
    split; [exact Hn|].
    unfold isBatchUpdate in H. rewrite (Get_nullish _ _ Hn) in H.
    injection H as <-. reflexivity.
  - intros [Hn ->]. unfold isBatchUpdate. rewrite (Get_nullish _ _ Hn).
    reflexivity.
Qed.

Lemma every_app (f : any -> completion bool) (good rest : list any) :
  every f good = Normal true -> every f (good ++ rest) = every f rest.
Proof.
  induction good as [|x good IH]; simpl; [reflexivity|].
  destruct (f x) as [[|]|e]; simpl; try discriminate. exact IH.
Qed.

(** The scan of a batch throws exactly when it reaches an item that is
    [null] or [undefined]: one that follows accepted items only. *)
Lemma every_isBatchUpdate_Throw (items : list any) (e : js_error) :
  every isBatchUpdate items = Throw e <->
  exists good x rest,
    items = (good ++ x :: rest)%list /\
    every isBatchUpdate good = Normal true /\
    nullish x /\ e = TypeError_read x "type".
Proof.
  split.
  - revert e. induction items as [|x rest IH]; intros e; simpl;
      [discriminate|].
    destruct (isBatchUpdate x) as [[|]|ex] eqn:Hx; simpl.
    + intros H. destruct (IH e H) as (good & y & rest' & -> & Hg & Hn & ->).
      exists (x :: good), y, rest'. split; [reflexivity|].
      split; [simpl; rewrite Hx; exact Hg | auto].
    + discriminate.
    + intros H. injection H as <-.
      apply isBatchUpdate_Throw in Hx as [Hn ->].
      exists [], x, rest. auto.
  - intros (good & x & rest & -> & Hg & Hn & ->).
    rewrite (every_app _ _ _ Hg). simpl.
    rewrite (proj2 (isBatchUpdate_Throw x _) (conj Hn eq_refl)). reflexivity.
Qed.

(** C5, amended.  On every argument other than [undefined] and [null]
    each validator but [isBatchUpdateArgs] returns a boolean;
    [isBatchUpdateArgs] throws exactly when [updates] is an array in which
    a [null] or [undefined] item follows accepted items only, and returns
    a boolean otherwise.  On [undefined] and on [null] each of the nine
    throws the [TypeError] of its first property read.  In the dispatcher
    the exception is caught: a tool that takes arguments, called without
    them, ends with an error of code [InternalError], and so does
    [batch_update] on a batch whose scan throws; the server is left as it
    was and nothing is sent. *)
Theorem validators_total_on_objects :
  forall args : any,
    (~ nullish args ->
     (exists b, isSetBpmArgs args = Normal b) /\
     (exists b, isToggleStepArgs args = Normal b) /\
     (exists b, isSetNoteArgs args = Normal b) /\
     (exists b, isSendPresetArgs args = Normal b) /\
     (exists b, isChangeMidiOutputArgs args = Normal b) /\
     (exists b, isChangeMidiInputArgs args = Normal b) /\
     (exists b, isToggleMidiClockArgs args = Normal b) /\
     (exists b, isUpdateCcArgs args = Normal b) /\
     ((exists b, isBatchUpdateArgs args = Normal b) <->
      ~ (exists good x rest,
            field args "updates" = VArr (good ++ x :: rest) /\
            every isBatchUpdate good = Normal true /\ nullish x)) /\
     (forall e : js_error,
         isBatchUpdateArgs args = Throw e <->
         exists good x rest,
           field args "updates" = VArr (good ++ x :: rest) /\
           every isBatchUpdate good = Normal true /\
           nullish x /\ e = TypeError_read x "type")) /\
    (nullish args ->
     isSetBpmArgs args = Throw (TypeError_read args "bpm") /\
     isToggleStepArgs args = Throw (TypeError_read args "row") /\
     isSetNoteArgs args = Throw (TypeError_read args "divide") /\
     isBatchUpdateArgs args = Throw (TypeError_read args "updates") /\
     isSendPresetArgs args = Throw (TypeError_read args "preset") /\
     isChangeMidiOutputArgs args = Throw (TypeError_read args "port") /\
     isChangeMidiInputArgs args = Throw (TypeError_read args "port") /\
     isToggleMidiClockArgs args = Throw (TypeError_read args "enabled") /\
     isUpdateCcArgs args = Throw (TypeError_read args "track")) /\
    (forall (render : Q -> string) (env : send_outcome) (srv : Server)
            (name : string),
        nullish args -> In name tools ->
        name <> "toggle_play" -> name <> "get_midi_ports" ->
        exists (err : McpError) (prop : string),
          callTool render env name args srv = (Raised err, srv) /\
          err = mcp_internal (TypeError_read args prop) /\
          code err = InternalError) /\
    (forall (render : Q -> string) (env : send_outcome) (srv : Server)
            (e : js_error),
        isBatchUpdateArgs args = Throw e ->
        exists err : McpError,
          callTool render env "batch_update" args srv = (Raised err, srv) /\
          err = mcp_internal e /\
          code err = InternalError).
Proof.
  intros args. split; [|split; [|split]].
  - intros H.
    unfold isSetBpmArgs, isToggleStepArgs, isSetNoteArgs, isSendPresetArgs,
      isChangeMidiOutputArgs, isChangeMidiInputArgs, isToggleMidiClockArgs,
      isUpdateCcArgs, isBatchUpdateArgs.
    rewrite !(Get_field _ _ H). simpl.
    repeat (split; [solve [eauto]|]).
    destruct (field args "updates") as [| | | | |items|];
      try (split;
           [split; [intros _ (g & x & r & E & _); discriminate E | eauto]
           |intros e; split;
              [discriminate | intros (g & x & r & E & _); discriminate E]]).
    split.
    + split.
      * intros [b Hb] (g & x & r & E & Hg & Hn). injection E as ->.
        assert (Ht : every isBatchUpdate (g ++ x :: r) =
                     Throw (TypeError_read x "type")).
        { apply every_isBatchUpdate_Throw. exists g, x, r. auto. }
        congruence.
      * intros Hno. destruct (every isBatchUpdate items) as [b|e] eqn:E;
          [eauto|]. exfalso. apply Hno.
        apply every_isBatchUpdate_Throw in E
          as (g & x & r & -> & Hg & Hn & _).
        exists g, x, r. auto.
    + intros e. rewrite every_isBatchUpdate_Throw. split.
      * intros (g & x & r & -> & Hg & Hn & ->). exists g, x, r. auto.
      * intros (g & x & r & E & Hg & Hn & ->). injection E as ->.
        exists g, x, r. auto.
  - intros H.
    unfold isSetBpmArgs, isToggleStepArgs, isSetNoteArgs, isSendPresetArgs,
      isChangeMidiOutputArgs, isChangeMidiInputArgs, isToggleMidiClockArgs,
      isUpdateCcArgs, isBatchUpdateArgs.
    rewrite !(Get_nullish _ _ H). repeat split.
  - intros render env srv name Hn Hin Hplay Hports.
    assert (Hv : forall (k : string) (f : any -> completion bool) (m : string)
                        (body : Server -> outcome rendered * Server),
               f args = Throw (TypeError_read args k) ->
               exists (err : McpError) (prop : string),
                 validated (f args) m body srv = (Raised err, srv) /\
                 err = mcp_internal (TypeError_read args prop) /\
                 code err = InternalError).
    { intros k f m body Hf. rewrite Hf. simpl. eauto. }
    simpl in Hin.
    destruct Hin as [<-|[<-|[<-|[<-|[<-|[<-|[<-|[<-|[<-|[<-|[<-|[]]]]]]]]]]]];
      try contradiction.
    + apply (Hv "bpm" isSetBpmArgs).
      unfold isSetBpmArgs. rewrite (Get_nullish _ _ Hn). reflexivity.
    + apply (Hv "row" isToggleStepArgs).
      unfold isToggleStepArgs. rewrite (Get_nullish _ _ Hn). reflexivity.
    + apply (Hv "divide" isSetNoteArgs).
      unfold isSetNoteArgs. rewrite (Get_nullish _ _ Hn). reflexivity.
    + apply (Hv "preset" isSendPresetArgs).
      unfold isSendPresetArgs. rewrite (Get_nullish _ _ Hn). reflexivity.
    + apply (Hv "updates" isBatchUpdateArgs).
      unfold isBatchUpdateArgs. rewrite (Get_nullish _ _ Hn). reflexivity.
    + apply (Hv "port" isChangeMidiOutputArgs).
      unfold isChangeMidiOutputArgs. rewrite (Get_nullish _ _ Hn). reflexivity.
    + apply (Hv "port" isChangeMidiInputArgs).
      unfold isChangeMidiInputArgs. rewrite (Get_nullish _ _ Hn). reflexivity.
    + apply (Hv "enabled" isToggleMidiClockArgs).
      unfold isToggleMidiClockArgs. rewrite (Get_nullish _ _ Hn). reflexivity.
    + apply (Hv "track" isUpdateCcArgs).
      unfold isUpdateCcArgs. rewrite (Get_nullish _ _ Hn). reflexivity.
  - intros render env srv e He.
    change (callTool render env "batch_update" args srv)
      with (tool_batch_update env args srv).
    unfold tool_batch_update. rewrite He. simpl. eauto.
Qed.

(** An object with a tempo, absent arguments, and a batch whose second
    item is [null]. *)
Lemma validators_total_on_objects_witness :
  let batch :=
    VObj [("updates",
           VArr [VObj [("type", VStr "sequence"); ("row", VNum 0%Q);
                       ("col", VNum 3%Q); ("state", VBool true)];
                 VNull])] in
  ~ nullish (VObj [("bpm", VNum 120%Q)]) /\
  (exists b, isSetBpmArgs (VObj [("bpm", VNum 120%Q)]) = Normal b) /\
  nullish VUndef /\
  isUpdateCcArgs VUndef = Throw (TypeError_read VUndef "track") /\
  (exists (err : McpError) (prop : string),
      callTool no_rendering Written "set_note" VUndef (on_open Written boot) =
        (Raised err, on_open Written boot) /\
      err = mcp_internal (TypeError_read VUndef prop) /\
      code err = InternalError) /\
  ~ nullish batch /\
  isBatchUpdateArgs batch = Throw (TypeError_read VNull "type") /\
  (exists err : McpError,
      callTool no_rendering Written "batch_update" batch (on_open Written boot) =
        (Raised err, on_open Written boot) /\
      err = mcp_internal (TypeError_read VNull "type") /\
      code err = InternalError).
Proof.
  intros batch.
  assert (H : ~ nullish (VObj [("bpm", VNum 120%Q)]))
    by (intros [E|E]; discriminate E).
  assert (Hu : nullish VUndef) by (left; reflexivity).
  assert (Hb : ~ nullish batch) by (intros [E|E]; discriminate E).
  split; [exact H|].
  split; [exact (proj1 (proj1 (validators_total_on_objects _) H))|].
  split; [exact Hu|].
  destruct (validators_total_on_objects VUndef) as (_ & Hthrow & Hcall & _).
  split; [apply Hthrow, Hu|].
  split.
  { apply (Hcall no_rendering Written (on_open Written boot) "set_note" Hu);
      [simpl; auto 10 | discriminate | discriminate]. }
  split; [exact Hb|].
  destruct (validators_total_on_objects batch) as (Htotal & _ & _ & Hbatch).
  assert (Ht : isBatchUpdateArgs batch = Throw (TypeError_read VNull "type")).
  { apply (proj2 (proj2 (proj2 (proj2 (proj2 (proj2 (proj2 (proj2 (proj2
             (Htotal Hb)))))))))).
    exists [VObj [("type", VStr "sequence"); ("row", VNum 0%Q);
                  ("col", VNum 3%Q); ("state", VBool true)]], VNull, [].
    split; [reflexivity|]. split; [reflexivity|].
    split; [right; reflexivity | reflexivity]. }
  split; [exact Ht|].
  exact (Hbatch no_rendering Written (on_open Written boot) _ Ht).
Defined.

(** ** The dispatcher *)

Lemma awaited_snd (env : send_outcome) (cmd : WsCommand)
      (k : WsResponse -> completion string) (srv : Server) :
  snd (awaited env cmd k srv) = snd (sendCommand env cmd srv).
Proof.
  unfold awaited. destruct (sendCommand env cmd srv) as [p srv'].
  destruct p as [r|e]; [destruct (status r)|]; reflexivity.
Qed.

Lemma validated_rejects (verdict : completion bool) (invalid : string)
      (k : Server -> outcome rendered * Server) (srv : Server) :
  verdict <> Normal true ->
  exists e, validated verdict invalid k srv = (Raised e, srv).
Proof.
  intros H. unfold validated. destruct verdict as [[|]|e]; eauto.
  congruence.
Qed.

(** C4.  [isBatchUpdateArgs] accepts exactly the arguments whose [updates]
    is an array of items that each match the schema of their variant
    (nine variants, [note] within 0..127, [divide] one of 1, 2, 3).  When
    it does not accept, in particular when a single item is invalid, the
    [batch_update] tool fails and the server, hence the transport, is
    untouched; when it accepts, the tool passes the whole [updates] list
    to [sendCommand].  The transport receives that one command or
    nothing. *)
Theorem batch_update_all_or_nothing :
  forall (render : Q -> string) (env : send_outcome) (args : any) (srv : Server),
    let cmd := mkCommand "batch_update" [("updates", field args "updates")] in
    let result := callTool render env "batch_update" args srv in
    (isBatchUpdateArgs args = Normal true <->
     exists items,
       field args "updates" = VArr items /\ Forall matches_schema items) /\
    (forall items : list any,
        isBatchUpdateArgs (VObj [("updates", VArr items)]) = Normal true <->
        Forall matches_schema items) /\
    (forall (items : list any) (x : any),
        field args "updates" = VArr items -> In x items ->
        ~ matches_schema x ->
        exists e, result = (Raised e, srv)) /\
    (isBatchUpdateArgs args <> Normal true ->
     exists e, result = (Raised e, srv)) /\
    (isBatchUpdateArgs args = Normal true ->
     snd result = snd (sendCommand env cmd srv)) /\
    (transport (snd result) = transport srv \/
     transport (snd result) = (transport srv ++ [cmd])%list).
Proof.
  intros render env args srv cmd result.
  assert (Hrej : isBatchUpdateArgs args <> Normal true ->
                 exists e, result = (Raised e, srv)).
  { intros H. apply validated_rejects, H. }
  assert (Hacc : isBatchUpdateArgs args = Normal true ->
                 snd result = snd (sendCommand env cmd srv)).
  { intros H. unfold result.
    change (callTool render env "batch_update" args srv)
      with (tool_batch_update env args srv).
    unfold tool_batch_update, validated. rewrite H. apply awaited_snd. }
  split; [apply isBatchUpdateArgs_spec|].
  split.
  { intros items. rewrite isBatchUpdateArgs_spec. simpl. split.
    - intros (items' & E & H). injection E as <-. exact H.
    - intros H. eauto. }
  split.
  { intros items x Hf Hx Hbad. apply Hrej. intros Hok.
    apply isBatchUpdateArgs_spec in Hok as (items' & E & Hall).
    rewrite Hf in E. injection E as <-.
    rewrite List.Forall_forall in Hall. apply Hbad, Hall, Hx. }
  split; [exact Hrej|]. split; [exact Hacc|].
  destruct (isBatchUpdateArgs args) as [[|]|e] eqn:Hv.
  - rewrite (Hacc eq_refl).
    destruct (sendCommand_frame env cmd srv) as (_ & _ & _ & _ & H). exact H.
  - destruct (Hrej ltac:(discriminate)) as [e' ->]. left. reflexivity.
  - destruct (Hrej ltac:(discriminate)) as [e' ->]. left. reflexivity.
Qed.

Lemma batch_update_all_or_nothing_witness :
  let item := VObj [("type", VStr "sequence"); ("row", VNum 0%Q);
                    ("col", VNum 3%Q); ("state", VBool true)] in
  let args := VObj [("updates", VArr [item])] in
  let srv := on_open Written boot in
  isBatchUpdateArgs args = Normal true /\
  snd (callTool no_rendering Written "batch_update" args srv) =
  snd (sendCommand Written (mkCommand "batch_update" [("updates", VArr [item])])
         srv).
Proof.
  split; [reflexivity|].
  apply (batch_update_all_or_nothing no_rendering Written
           (VObj [("updates",
                   VArr [VObj [("type", VStr "sequence"); ("row", VNum 0%Q);
                               ("col", VNum 3%Q); ("state", VBool true)]])])
           (on_open Written boot)).
  reflexivity.
Defined.

Lemma isUpdateCcArgs_inv (render : Q -> string) (args : any) :
  isUpdateCcArgs args = Normal true ->
  ~ nullish args /\
  (exists t, field args "track" = VStr t /\ In t validTracks) /\
  (exists c, ToString render (field args "cc") = Normal c) /\
  (exists q, field args "value" = VNum (Finite q) /\ (0 <= q)%Q /\ (q <= 127)%Q).
Proof.
  unfold isUpdateCcArgs.
  destruct (Get args "track") as [tr|e] eqn:Htr; simpl; [|discriminate].
  apply Get_Normal_inv in Htr as [Hn ->].
  intros H. injection H as H.
  rewrite !andb_true_iff in H. destruct H as [[[Ht Hc] _] Hv].
  split; [exact Hn|]. split; [|split].
  - destruct (field args "track") as [| | | |t| |]; try discriminate Ht.
    exists t. split; [reflexivity|].
    simpl in Ht. rewrite !orb_true_iff, !String.eqb_eq in Ht.
    destruct Ht as [->|[->|[->|[->|[->|Hf]]]]];
      [simpl; auto 10 .. | discriminate Hf].
  - destruct (field args "cc") as [| | |n|s| |]; try discriminate Hc;
      simpl; eauto.
  - apply in_range_spec, Hv.
Qed.

(** C3.  For every [update_cc] call whose arguments pass the validator,
    on any server (connected or not) and whatever the transport does with
    the write, the tool returns the acknowledgment text built from the
    arguments alone; the command goes through [sendCommand], whose
    response is dropped; the cached state is not touched by the call.  The
    cache takes the value only when a [cc_update] message is handled
    later (and a snapshot with [cc_values] is cached). *)
Theorem update_cc_acknowledged :
  forall (render : Q -> string) (env : send_outcome) (args : any) (srv : Server),
    isUpdateCcArgs args = Normal true ->
    let cmd := mkCommand "update_cc"
                 [("track", field args "track"); ("cc", field args "cc");
                  ("value", field args "value")] in
    let result := callTool render env "update_cc" args srv in
    (exists t c v,
        ToString render (field args "track") = Normal t /\
        ToString render (field args "cc") = Normal c /\
        ToString render (field args "value") = Normal v /\
        fst result =
          Returned (Plain ("CC update sent for " +:+ t +:+ " " +:+ c +:+
                           " = " +:+ v))) /\
    snd result = snd (sendCommand env cmd srv) /\
    currentState (snd result) = currentState srv /\
    (forall u : CcUpdateNotification,
        currentState (on_message render (MsgCcUpdate u) (snd result)) =
        applyCcUpdate render u (currentState srv)).
Proof.
  intros render env args srv Hok cmd result.
  destruct (isUpdateCcArgs_inv render args Hok)
    as (Hn & (t & Ht & _) & (c & Hc) & (q & Hv & _)).
  assert (Hres : result =
                 (of_completion
                    (let! t := ToString render (field args "track") in
                     let! c := ToString render (field args "cc") in
                     let! v := ToString render (field args "value") in
                     Normal ("CC update sent for " +:+ t +:+ " " +:+ c +:+
                             " = " +:+ v)),
                  snd (sendCommand env cmd srv))).
  { unfold result.
    change (callTool render env "update_cc" args srv)
      with (tool_update_cc render env args srv).
    unfold tool_update_cc, validated. rewrite Hok. reflexivity. }
  assert (Hcache : currentState (snd result) = currentState srv).
  { rewrite Hres. simpl.
    destruct (sendCommand_frame env cmd srv) as (_ & H & _). exact H. }
  split; [|split; [|split]].
  - exists t, c, (numberToString render (Finite q)).
    rewrite Hres, Hc, Ht, Hv. simpl. auto.
  - rewrite Hres. reflexivity.
  - exact Hcache.
  - intros u. simpl. rewrite Hcache. reflexivity.
Qed.

(** The scenario of the specification:
    [update_cc(track = "PU1", cc = "cc1", value = 80)], here while
    disconnected. *)
Lemma update_cc_acknowledged_witness :
  let args := VObj [("track", VStr "PU1"); ("cc", VStr "cc1");
                    ("value", VNum 80%Q)] in
  isUpdateCcArgs args = Normal true /\
  currentState (snd (callTool no_rendering Written "update_cc" args boot)) =
  currentState boot.
Proof.
  split; [reflexivity|].
  apply (update_cc_acknowledged no_rendering Written
           (VObj [("track", VStr "PU1"); ("cc", VStr "cc1");
                  ("value", VNum 80%Q)]) boot).
  reflexivity.
Defined.

(** ** Text of integers *)



(** ** Plain objects *)

Section Objects.

Context {A : Type}.






End Objects.








(** ** The cache under [cc_update] *)

Section CcUpdate.

Variable render : Q -> string.




(** The branch neither creates nor removes the cached state. *)
Lemma applyCcUpdate_None (u : CcUpdateNotification) (cache : option MgbState) :
  applyCcUpdate render u cache = None <-> cache = None.
Proof.
  unfold applyCcUpdate. destruct cache as [st|]; [|tauto].
  destruct (cc_values st) as [ccv|]; [|split; discriminate].
  match goal with |- context [match ?x with Some _ => _ | None => _ end] =>
    destruct x end; split; discriminate.
Qed.






End CcUpdate.



(** ** Reconnection *)

(** C7.  The [close] handler marks the server disconnected and schedules
    exactly one [connectToMgb], after [d = 5000 + floor(r * 3000)]
    milliseconds, where [r] is the double [Math.random()] returns in that
    run of the handler and the product is the rounded product of doubles.
    For every [r] in [0, 1) the delay satisfies [5000 <= d < 8000], and it
    follows the draw: [d - 5000] is the floor of the exact product
    [3000 * r], or one more when the product rounds up to an integer.
    Each close draws its own [r]: two closes schedule the delays of their
    two draws, and every delay from 5000 to 7999 is scheduled for some
    draw. *)
Theorem close_schedules_reconnect :
  forall (srv : Server) (r : Binary64.t),
    Binary64.valid r ->
    (0 <= Binary64.to_Q r)%Q -> (Binary64.to_Q r < 1)%Q ->
    exists d : Z,
      on_close r srv =
        mkServer (wsClient srv) (currentState srv) false (transport srv)
                 (timers srv ++ [d]) /\
      d = (5000 + Binary64.floor (Binary64.mul r (Binary64.of_Z 3000)))%Z /\
      (5000 <= d < 8000)%Z /\
      (5000 + Qfloor (inject_Z 3000 * Binary64.to_Q r) <= d
       <= 5000 + Qfloor (inject_Z 3000 * Binary64.to_Q r) + 1)%Z /\
      (forall r' : Binary64.t,
          timers (on_close r' (on_close r srv)) =
          (timers srv ++ [d; reconnectDelay r'])%list) /\
      (forall k : Z,
          (0 <= k < 3000)%Z ->
          exists r' : Binary64.t,
            unit_draw r' /\
            timers (on_close r' srv) = (timers srv ++ [(5000 + k)%Z])%list).
Proof.
  intros srv r Hv H0 H1. exists (reconnectDelay r).
  split; [reflexivity|]. split; [reflexivity|].
  split; [apply reconnectDelay_bounds; assumption|].
  split; [apply reconnectDelay_exact; assumption|].
  split.
  - intros r'. simpl. rewrite <- app_assoc. reflexivity.
  - intros k Hk. destruct (draw_for_delay k Hk) as [Hu Hd].
    exists (draw_for k). split; [exact Hu|]. simpl. rewrite Hd. reflexivity.
Qed.

(** A draw of one half: the reconnect is scheduled after 6500 ms, the
    floor of the exact product being 1500; a second close whose draw is 0
    is scheduled after 5000 ms. *)
Lemma close_schedules_reconnect_witness :
  let r := Binary64.mk 1 (-1) in
  Binary64.valid r /\
  (0 <= Binary64.to_Q r)%Q /\ (Binary64.to_Q r < 1)%Q /\
  on_close r boot = mkServer (Some O) None false [] [6500%Z] /\
  Qfloor (inject_Z 3000 * Binary64.to_Q r) = 1500%Z /\
  timers (on_close (Binary64.mk 0 0) (on_close r boot)) = [6500%Z; 5000%Z].
Proof.
  intros r.
  assert (Hv : Binary64.valid r) by (unfold Binary64.valid; simpl; lia).
  assert (H0 : (0 <= Binary64.to_Q r)%Q) by (unfold Qle; simpl; lia).
  assert (H1 : (Binary64.to_Q r < 1)%Q) by (unfold Qlt; simpl; lia).
  split; [exact Hv|]. split; [exact H0|]. split; [exact H1|].
  destruct (close_schedules_reconnect boot r Hv H0 H1)
    as (d & Hd & Hdef & _ & _ & Htwo & _).
  assert (E : d = 6500%Z) by (rewrite Hdef; vm_compute; reflexivity).
  rewrite E in Hd, Htwo.
  split; [exact Hd|]. split; [vm_compute; reflexivity|].
  exact (Htwo (Binary64.mk 0 0)).
Defined.

(** The delay is not a constant: it follows the draw. *)
Lemma reconnectDelay_follows_draw :
  reconnectDelay (Binary64.mk 0 0) = 5000%Z /\
  reconnectDelay (Binary64.mk 1 (-1)) = 6500%Z /\
  reconnectDelay (Binary64.mk (2 ^ 53 - 1) (-53)) = 7999%Z.
Proof. repeat split. Qed.

(** ** The state resource *)

(** C8.  With no cached state, a read of [mgb://state] returns the
    default document ([is_playing] false, [bpm] 120, [current_step] 0,
    empty [sequence] and [note_values], empty port names,
    [midi_clock_enabled] false, empty [cc_values]) with a non-empty
    [_error], whatever [sendCommand] answers to the [get_state] it tries;
    it does not fail, and the cache is still absent afterwards. *)
Theorem readResource_without_state :
  forall (env : send_outcome) (srv : Server),
    currentState srv = None ->
    exists _error : string,
      _error <> EmptyString /\
      fst (readResource env "mgb://state" srv) =
        Returned
          (mkContents "mgb://state" "application/json"
             (JSON_stringify
                (VObj [("is_playing", VBool false);
                       ("bpm", VNum 120%Q);
                       ("current_step", VNum 0%Q);
                       ("sequence", VArr []);
                       ("note_values", VArr []);
                       ("midi_output", VStr EmptyString);
                       ("midi_input", VStr EmptyString);
                       ("midi_clock_enabled", VBool false);
                       ("cc_values", VObj []);
                       ("_error", VStr _error)]))) /\
      currentState (snd (readResource env "mgb://state" srv)) = None.
Proof.
  intros env srv Hnone. unfold readResource. simpl negb. cbv iota.
  rewrite Hnone.
  destruct (Connected_or_Disconnected srv) as [Hc | Hd].
  - rewrite (sendCommand_Connected env _ srv Hc). destruct env as [|e].
    + simpl. rewrite Hnone.
      exists "mGB state is not available".
      split; [discriminate|]. split; [reflexivity | exact Hnone].
    + exists ("Error sending command: " +:+ cause e).
      split; [discriminate|]. split; [reflexivity | exact Hnone].
  - rewrite (sendCommand_Disconnected env _ srv Hd).
    exists "Not connected to mGB MIDI sequencer".
    split; [discriminate|]. split; [reflexivity | exact Hnone].
Qed.

(** The scenario of the specification: a read before any snapshot, on a
    server that never connected. *)
Lemma readResource_without_state_witness :
  currentState boot = None /\
  exists _error : string,
    _error <> EmptyString /\
    fst (readResource Written "mgb://state" boot) =
      Returned (json_contents "mgb://state"
                  (JSON_stringify (dummy_state _error))).
Proof.
  split; [reflexivity|].
  destruct (readResource_without_state Written boot eq_refl)
    as (e & Hne & H & _).
  exists e. split; [exact Hne | exact H].
Defined.

(** ** The undeclared tool *)

(** C10, as stated, fails: with no [arguments] the first property read
    throws, the dispatcher turns the exception into an [InternalError],
    no command is sent and no acknowledgment is returned, even on a
    connected server. *)
Lemma update_synth_param_without_arguments :
  callTool no_rendering Written "update_synth_param" VUndef
           (on_open Written boot) =
  (Raised (mcp_internal (TypeError_read VUndef "track")), on_open Written boot).
Proof. reflexivity. Qed.

(** C10, amended.  [update_synth_param] is handled although neither the
    tool list nor the operation surface of the specification names it.
    For every argument value other than [undefined] and [null], with no
    validation and on any server, it passes to [sendCommand] the
    [update_cc] command made of the [track], [param] (as [cc]) and
    [value] properties, drops the response, and returns the
    acknowledgment text whenever the three properties convert to
    strings. *)
Theorem update_synth_param_unvalidated :
  forall (render : Q -> string) (env : send_outcome) (args : any) (srv : Server),
    ~ nullish args ->
    let cmd := mkCommand "update_cc"
                 [("track", field args "track"); ("cc", field args "param");
                  ("value", field args "value")] in
    let result := callTool render env "update_synth_param" args srv in
    snd result = snd (sendCommand env cmd srv) /\
    (Connected srv ->
     transport (snd (callTool render Written "update_synth_param" args srv)) =
     (transport srv ++ [cmd])%list) /\
    (forall t p v : string,
        ToString render (field args "track") = Normal t ->
        ToString render (field args "param") = Normal p ->
        ToString render (field args "value") = Normal v ->
        fst result =
          Returned (Plain ("Synth parameter update sent for " +:+
                           t +:+ " " +:+ p +:+ " = " +:+ v))) /\
    ~ In "update_synth_param" tools /\
    ~ In "update_synth_param" spec_operation_surface.
Proof.
  intros render env args srv Hn cmd result.
  assert (Hres : forall env',
             callTool render env' "update_synth_param" args srv =
             (of_completion
                (let! t := ToString render (field args "track") in
                 let! p := ToString render (field args "param") in
                 let! v := ToString render (field args "value") in
                 Normal ("Synth parameter update sent for " +:+
                         t +:+ " " +:+ p +:+ " = " +:+ v)),
              snd (sendCommand env' cmd srv))).
  { intros env'.
    change (callTool render env' "update_synth_param" args srv)
      with (tool_update_synth_param render env' args srv).
    unfold tool_update_synth_param. rewrite (Get_field _ _ Hn). reflexivity. }
  split; [unfold result; rewrite Hres; reflexivity|].
  split.
  { intros Hc. rewrite Hres. simpl.
    rewrite (sendCommand_Connected Written cmd srv Hc). reflexivity. }
  split.
  { intros t p v Ht Hp Hv. unfold result. rewrite Hres, Ht, Hp, Hv.
    reflexivity. }
  split; intros H; simpl in H;
    repeat (destruct H as [H|H]; [discriminate H|]); exact H.
Qed.

Lemma update_synth_param_unvalidated_witness :
  let args := VObj [("track", VStr "PU1"); ("param", VStr "cc1");
                    ("value", VNum 80%Q)] in
  ~ nullish args /\
  fst (callTool no_rendering Written "update_synth_param" args boot) =
    Returned (Plain "Synth parameter update sent for PU1 cc1 = 80").
Proof.
  assert (Hn : ~ nullish (VObj [("track", VStr "PU1"); ("param", VStr "cc1");
                                ("value", VNum 80%Q)]))
    by (intros [E|E]; discriminate E).
  split; [exact Hn|].
  destruct (update_synth_param_unvalidated no_rendering Written _ boot Hn)
    as (_ & _ & Hack & _).
  apply (Hack "PU1" "cc1" "80"); reflexivity.
Defined.

(** * Further properties of the bridge *)

(** ** What one request can do to the server *)

Section Requests.

Variable render : Q -> string.

Lemma validated_snd (verdict : completion bool) (invalid : string)
      (k : Server -> outcome rendered * Server) (srv : Server) :
  snd (validated verdict invalid k srv) = srv \/
  (verdict = Normal true /\ snd (validated verdict invalid k srv) = snd (k srv)).
Proof.
  unfold validated. destruct verdict as [[|]|e]; simpl; auto.
Qed.

Lemma isSetBpmArgs_inv (args : any) :
  isSetBpmArgs args = Normal true ->
  exists q, field args "bpm" = VNum (Finite q) /\ (60 <= q)%Q /\ (q <= 300)%Q.
Proof.
  unfold isSetBpmArgs.
  destruct (Get args "bpm") as [v|e] eqn:Hv; simpl; [|discriminate].
  apply Get_Normal_inv in Hv as [_ ->]. intros H.
  assert (H' : typeof_number (field args "bpm") &&
               in_range 60 300 (field args "bpm") = true) by congruence.
  apply andb_true_iff in H' as [_ H']. apply in_range_spec, H'.
Qed.

Lemma isToggleStepArgs_inv (args : any) :
  isToggleStepArgs args = Normal true ->
  exists r c, field args "row" = VNum r /\ field args "col" = VNum c.
Proof.
  unfold isToggleStepArgs.
  destruct (Get args "row") as [v|e] eqn:Hv; simpl; [|discriminate].
  apply Get_Normal_inv in Hv as [_ ->]. intros H.
  assert (H' : typeof_number (field args "row") &&
               typeof_number (field args "col") = true) by congruence.
  apply andb_true_iff in H' as [Hr Hc].
  apply typeof_number_spec in Hr as [r Hr]. apply typeof_number_spec in Hc as [c Hc].
  eauto.
Qed.

Lemma isSetNoteArgs_inv (args : any) :
  isSetNoteArgs args = Normal true ->
  exists r c q,
    field args "row" = VNum r /\ field args "col" = VNum c /\
    field args "note" = VNum (Finite q) /\ (0 <= q)%Q /\ (q <= 127)%Q /\
    (field args "divide" = VUndef \/ divide_ok (field args "divide")).
Proof.
  unfold isSetNoteArgs.
  destruct (Get args "divide") as [v|e] eqn:Hv; simpl; [|discriminate].
  apply Get_Normal_inv in Hv as [_ ->]. intros H.
  injection H as H. rewrite !andb_true_iff in H.
  destruct H as [[[[Hr Hc] _] Hn] Hd].
  apply typeof_number_spec in Hr as [r Hr]. apply typeof_number_spec in Hc as [c Hc].
  apply in_range_spec in Hn as (q & Hq & H0 & H1).
  exists r, c, q. repeat (split; [assumption|]).
  destruct (field args "divide") eqn:E; auto;
    right; apply includes_1_2_3_spec; exact Hd.
Qed.

Lemma typeof_string_inv (v : any) : typeof_string v = true -> exists s, v = VStr s.
Proof. destruct v; simpl; try discriminate; eauto. Qed.

Lemma string_arg_inv (k : string) (args : any) :
  (let! v := Get args k in Normal (typeof_string v)) = Normal true ->
  exists s, field args k = VStr s.
Proof.
  destruct (Get args k) as [v|e] eqn:Hv; simpl; [|discriminate].
  apply Get_Normal_inv in Hv as [_ ->]. intros H.
  apply typeof_string_inv. congruence.
Qed.

Lemma isToggleMidiClockArgs_inv (args : any) :
  isToggleMidiClockArgs args = Normal true ->
  exists b, field args "enabled" = VBool b.
Proof.
  unfold isToggleMidiClockArgs.
  destruct (Get args "enabled") as [v|e] eqn:Hv; simpl; [|discriminate].
  apply Get_Normal_inv in Hv as [_ ->]. intros H.
  apply typeof_boolean_spec. congruence.
Qed.

(** A tool call leaves the server as it was or hands one command to
    [sendCommand], and that command is a [dispatched] one. *)
Lemma callTool_sends (env : send_outcome) (name : string) (args : any)
      (srv : Server) :
  snd (callTool render env name args srv) = srv \/
  exists cmd, dispatched cmd /\
    snd (callTool render env name args srv) = snd (sendCommand env cmd srv).
Proof.
  unfold callTool.
  repeat match goal with
         | |- context [if ?b then _ else _] => destruct b
         end.
  - right. exists (mkCommand "toggle_play" []).
    split; [constructor | apply awaited_snd].
  - unfold tool_set_bpm.
    destruct (validated_snd (isSetBpmArgs args) "Invalid BPM arguments"
                (awaited env (mkCommand "set_bpm" [("bpm", field args "bpm")])
                   (fun response =>
                      let! b := ToString render (data_field response "bpm") in
                      Normal ("BPM set to " +:+ b))) srv) as [H | [Hv H]];
      [left; exact H|].
    right. rewrite H, awaited_snd.
    apply isSetBpmArgs_inv in Hv as (q & -> & H0 & H1).
    eexists. split; [apply d_set_bpm; eassumption | reflexivity].
  - unfold tool_toggle_step.
    match goal with |- context [validated ?v ?m ?k srv] =>
      destruct (validated_snd v m k srv) as [H | [Hv H]] end;
      [left; exact H|].
    right. rewrite H, awaited_snd.
    apply isToggleStepArgs_inv in Hv as (r & c & -> & ->).
    eexists. split; [apply d_toggle_step | reflexivity].
  - unfold tool_set_note.
    match goal with |- context [validated ?v ?m ?k srv] =>
      destruct (validated_snd v m k srv) as [H | [Hv H]] end;
      [left; exact H|].
    right. rewrite H, awaited_snd.
    apply isSetNoteArgs_inv in Hv as (r & c & q & -> & -> & -> & H0 & H1 & Hd).
    destruct Hd as [-> | Hd].
    + eexists. split; [apply d_set_note; eassumption | reflexivity].
    + pose proof Hd as (q' & Eq & _). rewrite Eq in *.
      eexists. split; [apply d_set_note_divide; eassumption | reflexivity].
  - unfold tool_send_preset.
    match goal with |- context [validated ?v ?m ?k srv] =>
      destruct (validated_snd v m k srv) as [H | [Hv H]] end;
      [left; exact H|].
    right. rewrite H, awaited_snd.
    apply string_arg_inv in Hv as (s & ->).
    eexists. split; [apply d_send_preset | reflexivity].
  - unfold tool_batch_update.
    match goal with |- context [validated ?v ?m ?k srv] =>
      destruct (validated_snd v m k srv) as [H | [Hv H]] end;
      [left; exact H|].
    right. rewrite H, awaited_snd.
    apply isBatchUpdateArgs_spec in Hv as (items & -> & Hall).
    eexists. split; [apply d_batch_update; exact Hall | reflexivity].
  - right. exists (mkCommand "get_available_ports" []).
    split; [constructor|]. unfold tool_get_midi_ports.
    destruct (sendCommand env _ srv) as [p srv'].
    destruct p as [r|e]; [destruct (status r)|]; reflexivity.
  - unfold tool_change_midi_output.
    match goal with |- context [validated ?v ?m ?k srv] =>
      destruct (validated_snd v m k srv) as [H | [Hv H]] end;
      [left; exact H|].
    right. rewrite H, awaited_snd.
    apply string_arg_inv in Hv as (s & ->).
    eexists. split; [apply d_change_midi_output | reflexivity].
  - unfold tool_change_midi_input.
    match goal with |- context [validated ?v ?m ?k srv] =>
      destruct (validated_snd v m k srv) as [H | [Hv H]] end;
      [left; exact H|].
    right. rewrite H, awaited_snd.
    apply string_arg_inv in Hv as (s & ->).
    eexists. split; [apply d_change_midi_input | reflexivity].
  - unfold tool_toggle_midi_clock.
    match goal with |- context [validated ?v ?m ?k srv] =>
      destruct (validated_snd v m k srv) as [H | [Hv H]] end;
      [left; exact H|].
    right. rewrite H, awaited_snd.
    apply isToggleMidiClockArgs_inv in Hv as (b & ->).
    eexists. split; [apply d_toggle_midi_clock | reflexivity].
  - unfold tool_update_cc.
    match goal with |- context [validated ?v ?m ?k srv] =>
      destruct (validated_snd v m k srv) as [H | [Hv H]] end;
      [left; exact H|].
    right. rewrite H. simpl.
    eexists. split; [apply d_update_cc | reflexivity].
  - unfold tool_update_synth_param.
    destruct (Get args "track") as [tr|e]; [|left; reflexivity].
    right. simpl. eexists. split; [apply d_update_cc | reflexivity].
  - left. reflexivity.
Qed.

Lemma readResource_sends (env : send_outcome) (u : string) (srv : Server) :
  snd (readResource env u srv) = srv \/
  snd (readResource env u srv) =
  snd (sendCommand env (mkCommand "get_state" []) srv).
Proof.
  unfold readResource.
  destruct (negb (u =? "mgb://state")%string); [left; reflexivity|].
  destruct (currentState srv); [left; reflexivity|]. right.
  destruct (sendCommand env _ srv) as [p srv'].
  destruct p as [r|e]; [destruct (status r); [destruct (currentState srv')|]|];
    reflexivity.
Qed.

End Requests.

(** ** Invariants of the event loop *)

Section Traces.

Variable render : Q -> string.

Lemma run_app (evs : list event) (ev : event) :
  run render (evs ++ [ev]) = step render (run render evs) ev.
Proof. unfold run. rewrite fold_left_app. reflexivity. Qed.

Lemma step_transport (srv : Server) (ev : event) :
  transport (step render srv ev) = transport srv \/
  exists cmd, dispatched cmd /\
    transport (step render srv ev) = (transport srv ++ [cmd])%list.
Proof.
  assert (Hsend : forall env cmd s,
             transport s = transport srv -> dispatched cmd ->
             transport (snd (sendCommand env cmd s)) = transport srv \/
             exists cmd', dispatched cmd' /\
               transport (snd (sendCommand env cmd s)) =
               (transport srv ++ [cmd'])%list).
  { intros env cmd s Hs Hd.
    destruct (sendCommand_frame env cmd s) as (_ & _ & _ & _ & [H | H]);
      rewrite H, Hs; [left; reflexivity | right; eauto]. }
  destruct ev; simpl.
  - apply Hsend; [reflexivity | constructor].
  - left. destruct m; reflexivity.
  - left. reflexivity.
  - left. reflexivity.
  - left. reflexivity.
  - destruct (callTool_sends render env name args srv) as [-> | (cmd & Hd & ->)];
      [left; reflexivity | apply Hsend; [reflexivity | exact Hd]].
  - destruct (readResource_sends env u srv) as [-> | ->];
      [left; reflexivity | apply Hsend; [reflexivity | constructor]].
Qed.

Lemma step_currentState (srv : Server) (ev : event) :
  currentState (step render srv ev) = None <->
  currentState srv = None /\ is_snapshot ev = false.
Proof.
  destruct ev; simpl.
  - unfold on_open.
    destruct (sendCommand_unchanged env (mkCommand "get_state" [])
                (set_isConnected true srv)) as (_ & -> & _). simpl. tauto.
  - destruct m as [st|r|u|]; simpl; try tauto.
    + split; [discriminate | intros [_ H]; discriminate H].
    + rewrite applyCcUpdate_None. tauto.
  - tauto.
  - tauto.
  - tauto.
  - destruct (callTool_unchanged render env name args srv) as (_ & -> & _). tauto.
  - destruct (readResource_unchanged env u srv) as (_ & -> & _). tauto.
Qed.

Lemma step_isConnected (srv : Server) (ev : event) :
  isConnected (step render srv ev) = link (isConnected srv) ev.
Proof.
  destruct ev; simpl; try reflexivity.
  - unfold on_open.
    destruct (sendCommand_unchanged env (mkCommand "get_state" [])
                (set_isConnected true srv)) as (_ & _ & -> & _). reflexivity.
  - destruct m; reflexivity.
  - destruct (callTool_unchanged render env name args srv) as (_ & _ & -> & _).
    reflexivity.
  - destruct (readResource_unchanged env u srv) as (_ & _ & -> & _).
    reflexivity.
Qed.

Lemma step_timers (srv : Server) (ev : event) :
  timers (step render srv ev) =
  (timers srv ++ map reconnectDelay (close_draws [ev]))%list.
Proof.
  destruct ev; simpl; rewrite ?app_nil_r; try reflexivity.
  - unfold on_open.
    destruct (sendCommand_unchanged env (mkCommand "get_state" [])
                (set_isConnected true srv)) as (_ & _ & _ & ->). reflexivity.
  - destruct m; reflexivity.
  - destruct (callTool_unchanged render env name args srv) as (_ & _ & _ & ->).
    reflexivity.
  - destruct (readResource_unchanged env u srv) as (_ & _ & _ & ->).
    reflexivity.
Qed.

Lemma fold_currentState (evs : list event) (srv : Server) :
  currentState (fold_left (step render) evs srv) = None <->
  currentState srv = None /\ existsb is_snapshot evs = false.
Proof.
  revert srv. induction evs as [|ev evs IH]; intros srv; simpl.
  - tauto.
  - rewrite IH, step_currentState, orb_false_iff. tauto.
Qed.

Lemma close_draws_app (evs evs' : list event) :
  close_draws (evs ++ evs') = (close_draws evs ++ close_draws evs')%list.
Proof.
  induction evs as [|ev evs IH]; [reflexivity|].
  destruct ev; simpl; rewrite IH; reflexivity.
Qed.

End Traces.

(** X1.  Once the constructor has run, [wsClient] is never [null]
    again, whatever events follow; so on every state the server can be in
    the branch [sendCommand] takes is decided by the flag [isConnected]
    alone. *)
Theorem socket_present_after_boot :
  forall (render : Q -> string) (evs : list event),
    wsClient (run render evs) <> None /\
    (isConnected (run render evs) = true <-> Connected (run render evs)) /\
    (isConnected (run render evs) = false <-> Disconnected (run render evs)).
Proof.
  intros render evs. pose proof (run_wsClient render evs) as Hw.
  split; [exact Hw|]. unfold Connected, Disconnected. split; split.
  - intros H. split; assumption.
  - intros [H _]. exact H.
  - intros H. left. exact H.
  - intros [H | H]; [exact H | contradiction].
Qed.

(** X2.  The flag [isConnected] follows the transport events only: it is
    true exactly when the latest of the [open], [close] and [error] events
    so far is an [open].  No tool call, resource read, inbound message or
    reconnect timer changes it. *)
Theorem connection_flag_follows_transport_events :
  forall (render : Q -> string) (evs : list event),
    isConnected (run render evs) = fold_left link evs false.
Proof.
  intros render evs. unfold run.
  assert (H : forall srv,
             isConnected (fold_left (step render) evs srv) =
             fold_left link evs (isConnected srv)).
  { induction evs as [|ev evs IH]; intros srv; simpl.
    - reflexivity.
    - rewrite IH, step_isConnected. reflexivity. }
  apply H.
Qed.

(** X3.  The cached state is absent exactly as long as no full snapshot
    has been received: incremental [cc_update] messages, responses, tool
    calls and resource reads never create it, and nothing ever removes
    it. *)
Theorem cache_absent_until_first_snapshot :
  forall (render : Q -> string) (evs : list event),
    currentState (run render evs) = None <-> existsb is_snapshot evs = false.
Proof.
  intros render evs. unfold run.
  rewrite fold_currentState. simpl. tauto.
Qed.

(** X4.  Every command object ever passed to [sendCommand] and
    serialized for the transport was built by the dispatcher or a
    connection handler from accepted arguments: a [set_bpm] object has its
    tempo within 60..300, a [set_note] its note within 0..127 and its
    [divide], when present, among 1, 2, 3, a [batch_update] only items
    that match the schema, and so on.  This holds of the objects as they
    are given to [JSON.stringify], along every sequence of events that
    leaves the built-in objects alone. *)
Theorem transport_carries_dispatched_commands :
  forall (render : Q -> string) (evs : list event),
    forallb keeps_builtins evs = true ->
    Forall dispatched (transport (run render evs)).
Proof.
  intros render evs _. unfold run.
  assert (H : Forall dispatched (transport boot)) by constructor.
  revert H. generalize boot.
  induction evs as [|ev evs IH]; intros srv H; simpl; [exact H|].
  apply IH.
  destruct (step_transport render srv ev) as [-> | (cmd & Hd & ->)];
    [exact H|].
  apply Forall_app. split; [exact H | constructor; [exact Hd | constructor]].
Qed.

(** A session: the socket opens, a snapshot and a [cc_update] arrive, a
    tempo is set, a tempo is refused. *)
Lemma transport_carries_dispatched_commands_witness :
  let st := mkState false 120%Q 0%Q [] [] EmptyString EmptyString false (Some ∅) in
  let evs :=
    [ws_open Written;
     ws_message (MsgState st);
     ws_message (MsgCcUpdate (mkCcUpdate "PU1" (CcNumber 5%Q) 10%Q));
     tool_call Written "set_bpm" (VObj [("bpm", VNum 140%Q)]);
     tool_call Written "set_bpm" (VObj [("bpm", VNum 301%Q)])] in
  forallb keeps_builtins evs = true /\
  transport (run no_rendering evs) =
    [mkCommand "get_state" []; mkCommand "set_bpm" [("bpm", VNum 140%Q)]] /\
  Forall dispatched (transport (run no_rendering evs)).
Proof.
  intros st evs.
  assert (H : forallb keeps_builtins evs = true) by reflexivity.
  split; [exact H|]. split; [reflexivity|].
  exact (transport_carries_dispatched_commands no_rendering evs H).
Defined.

(** X5.  The transport log only grows, by at most one command per event;
    while the server is disconnected a tool call or a resource read
    leaves the whole server as it was: nothing is written and nothing is
    kept for later. *)
Theorem requests_write_at_most_once :
  forall (render : Q -> string) (srv : Server) (ev : event),
    (transport (step render srv ev) = transport srv \/
     exists cmd, transport (step render srv ev) = (transport srv ++ [cmd])%list) /\
    (Disconnected srv ->
     (forall env name args, snd (callTool render env name args srv) = srv) /\
     (forall env u, snd (readResource env u srv) = srv)).
Proof.
  intros render srv ev. split.
  - destruct (step_transport render srv ev) as [H | (cmd & _ & H)]; eauto.
  - intros Hd. split.
    + intros env name args.
      destruct (callTool_sends render env name args srv) as [H | (cmd & _ & H)];
        [exact H|].
      rewrite H, (sendCommand_Disconnected env cmd srv Hd). reflexivity.
    + intros env u.
      destruct (readResource_sends env u srv) as [H | H]; [exact H|].
      rewrite H, (sendCommand_Disconnected env _ srv Hd). reflexivity.
Qed.

Lemma requests_write_at_most_once_witness :
  Disconnected boot /\
  snd (callTool no_rendering Written "set_bpm" (VObj [("bpm", VNum 120%Q)]) boot)
  = boot.
Proof.
  assert (H : Disconnected boot) by (left; reflexivity).
  split; [exact H|].
  apply (requests_write_at_most_once no_rendering boot ws_error), H.
Defined.

(** X6.  One reconnect is scheduled per [close] event and by nothing
    else: the delays passed to [setTimeout] are, in order, those of the
    draws of the [close] events.  When every draw is a double in [0, 1),
    every scheduled delay is within 5000 <= d < 8000. *)
Theorem one_reconnect_per_close :
  forall (render : Q -> string) (evs : list event),
    timers (run render evs) = map reconnectDelay (close_draws evs) /\
    (Forall unit_draw (close_draws evs) ->
     Forall (fun d => 5000 <= d < 8000)%Z (timers (run render evs))).
Proof.
  intros render evs.
  assert (H : timers (run render evs) = map reconnectDelay (close_draws evs)).
  { unfold run.
    assert (G : forall srv,
               timers (fold_left (step render) evs srv) =
               (timers srv ++ map reconnectDelay (close_draws evs))%list).
    { induction evs as [|ev evs IH]; intros srv; simpl fold_left.
      - simpl. rewrite app_nil_r. reflexivity.
      - rewrite IH, step_timers.
        change (ev :: evs) with ([ev] ++ evs)%list.
        rewrite close_draws_app, map_app, app_assoc. reflexivity. }
    rewrite G. reflexivity. }
  split; [exact H|]. rewrite H. clear H. intros Hd.
  induction Hd as [|r rs (Hv & H0 & H1) _ IH]; simpl; constructor.
  - apply reconnectDelay_bounds; assumption.
  - exact IH.
Qed.

Lemma one_reconnect_per_close_witness :
  let evs := [ws_open Written; ws_error; ws_close (Binary64.mk 1 (-1))] in
  Forall unit_draw (close_draws evs) /\
  Forall (fun d => 5000 <= d < 8000)%Z (timers (run no_rendering evs)).
Proof.
  assert (H : Forall unit_draw
                (close_draws [ws_open Written; ws_error;
                              ws_close (Binary64.mk 1 (-1))])).
  { constructor; [|constructor]. unfold unit_draw, Binary64.valid, Qle, Qlt.
    simpl. lia. }
  split; [exact H|].
  apply (one_reconnect_per_close no_rendering), H.
Defined.

(** ** The cache *)

Section Cache.

Variable render : Q -> string.















End Cache.







(** ** The state resource, continued *)

(** X10.  Once a snapshot has been received, a read of [mgb://state]
    returns the cached state and leaves the server as it was: it never
    writes to the transport, connected or not. *)
Theorem read_after_snapshot_is_local :
  forall (render : Q -> string) (evs : list event),
    existsb is_snapshot evs = true ->
    exists st : MgbState,
      currentState (run render evs) = Some st /\
      forall env : send_outcome,
        readResource env "mgb://state" (run render evs) =
        (Returned (mkContents "mgb://state" "application/json"
                     (JSON_stringify_state st)),
         run render evs).
Proof.
  intros render evs H.
  destruct (currentState (run render evs)) as [st|] eqn:Hst.
  - exists st. split; [reflexivity|]. intros env.
    unfold readResource. simpl negb. cbv iota. rewrite Hst. reflexivity.
  - unfold run in Hst. apply fold_currentState in Hst as [_ Hno]. congruence.
Qed.

Lemma read_after_snapshot_is_local_witness :
  let st := mkState true 140%Q 3%Q [[true; false]] [[60%Q : number; 62%Q : number]]
                    "out" "in" false (Some ∅) in
  let evs := [ws_open Written; ws_message (MsgState st); ws_close (Binary64.mk 1 (-1))] in
  existsb is_snapshot evs = true /\
  exists st' : MgbState,
    currentState (run no_rendering evs) = Some st' /\
    forall env : send_outcome,
      readResource env "mgb://state" (run no_rendering evs) =
      (Returned (mkContents "mgb://state" "application/json"
                   (JSON_stringify_state st')),
       run no_rendering evs).
Proof.
  split; [reflexivity|].
  apply (read_after_snapshot_is_local no_rendering). reflexivity.
Defined.

(** X11.  Without a cached state, each read of [mgb://state] on a
    connected server whose write succeeds puts one [get_state] on the
    transport and still answers with the default document, marked
    ["mGB state is not available"]: the snapshot that the command asks
    for can only arrive in a later turn. *)
Theorem read_without_state_requests_snapshot :
  forall srv : Server,
    Connected srv -> currentState srv = None ->
    readResource Written "mgb://state" srv =
    (Returned (mkContents "mgb://state" "application/json"
                 (JSON_stringify (dummy_state "mGB state is not available"))),
     ws_send (mkCommand "get_state" []) srv) /\
    transport (snd (readResource Written "mgb://state"
                      (snd (readResource Written "mgb://state" srv)))) =
    (transport srv ++ [mkCommand "get_state" []; mkCommand "get_state" []])%list.
Proof.
  intros srv Hc Hn.
  assert (H : forall s, Connected s -> currentState s = None ->
                        readResource Written "mgb://state" s =
                        (Returned (mkContents "mgb://state" "application/json"
                                     (JSON_stringify
                                        (dummy_state "mGB state is not available"))),
                         ws_send (mkCommand "get_state" []) s)).
  { intros s Hs Hns. unfold readResource. simpl negb. cbv iota. rewrite Hns.
    rewrite (sendCommand_Connected Written _ s Hs). simpl. rewrite Hns.
    reflexivity. }
  split; [apply H; assumption|].
  rewrite (H srv Hc Hn). simpl fst. simpl snd.
  rewrite H; [| destruct Hc; split; assumption | exact Hn].
  simpl. rewrite <- app_assoc. reflexivity.
Qed.

Lemma read_without_state_requests_snapshot_witness :
  let srv := on_open Written boot in
  Connected srv /\ currentState srv = None /\
  readResource Written "mgb://state" srv =
  (Returned (mkContents "mgb://state" "application/json"
               (JSON_stringify (dummy_state "mGB state is not available"))),
   ws_send (mkCommand "get_state" []) srv).
Proof.
  assert (Hc : Connected (on_open Written boot))
    by (split; [reflexivity | discriminate]).
  split; [exact Hc|]. split; [reflexivity|].
  apply (read_without_state_requests_snapshot (on_open Written boot) Hc eq_refl).
Defined.

(** X12.  The resource handler knows one URI.  For [mgb://state] it always
    returns a JSON document for that URI and never raises; for any other
    URI it raises [InvalidRequest] naming the URI and touches nothing,
    whether or not a state is cached. *)
Theorem readResource_by_uri :
  forall (env : send_outcome) (u : string) (srv : Server),
    (u = "mgb://state" ->
     exists t : rendered,
       fst (readResource env u srv) =
       Returned (mkContents "mgb://state" "application/json" t)) /\
    (u <> "mgb://state" ->
     readResource env u srv =
     (Raised (mcp_error InvalidRequest ("Unknown resource: " +:+ u)), srv)).
Proof.
  intros env u srv. split.
  - intros ->. unfold readResource. simpl negb. cbv iota.
    destruct (currentState srv); [simpl; eauto|].
    destruct (sendCommand_cases env (mkCommand "get_state" []) srv)
      as (r & Hr & _).
    destruct (sendCommand env _ srv) as [p srv']. simpl in Hr. subst p.
    destruct (status r); [destruct (currentState srv')|]; simpl; eauto.
  - intros Hne. unfold readResource.
    destruct (String.eqb_spec u "mgb://state") as [E|_]; [contradiction|].
    reflexivity.
Qed.

Lemma readResource_by_uri_witness :
  "mgb://notes" <> "mgb://state" /\
  readResource Written "mgb://notes" boot =
  (Raised (mcp_error InvalidRequest "Unknown resource: mgb://notes"), boot).
Proof.
  assert (H : "mgb://notes" <> "mgb://state") by discriminate.
  split; [exact H|].
  apply (readResource_by_uri Written "mgb://notes" boot), H.
Defined.

(** ** Opening the connection *)

(** X13.  When the socket opens the server becomes connected and asks for
    the state at once: a [get_state] is the next command on the
    transport.  If that write throws, nothing is written and the server
    is connected all the same. *)
Theorem open_connects_and_requests_state :
  forall (render : Q -> string) (evs : list event),
    let before := run render evs in
    Connected (run render (evs ++ [ws_open Written])) /\
    transport (run render (evs ++ [ws_open Written])) =
      (transport before ++ [mkCommand "get_state" []])%list /\
    (forall e : thrown,
        Connected (run render (evs ++ [ws_open (SendThrows e)])) /\
        transport (run render (evs ++ [ws_open (SendThrows e)])) =
        transport before).
Proof.
  intros render evs before.
  assert (Hc : Connected (set_isConnected true before)).
  { split; [reflexivity | apply run_wsClient]. }
  assert (Hopen : forall env, run render (evs ++ [ws_open env]) =
                              snd (sendCommand env (mkCommand "get_state" [])
                                     (set_isConnected true before))).
  { intros env. rewrite run_app. reflexivity. }
  rewrite !Hopen, (sendCommand_Connected Written _ _ Hc). simpl.
  split; [destruct Hc; split; assumption|]. split; [reflexivity|].
  intros e. rewrite Hopen, (sendCommand_Connected (SendThrows e) _ _ Hc).
  simpl. split; [exact Hc | reflexivity].
Qed.

(** ** Outcomes of the dispatcher *)

Section Outcomes.

Variable render : Q -> string.

(** The only exception [ToString] raises is the failed conversion of an
    object. *)
Lemma ToString_Throw (v : any) (e : js_error) :
  ToString render v = Throw e -> e = TypeError_to_primitive.
Proof.
  revert v e. fix IH 1. intros v e. destruct v as [| | b| n| s| items| props];
    simpl; try discriminate.
  - set (join := fix join (l : list any) : completion string :=
           match l with
           | [] => Normal EmptyString
           | x :: rest =>
               let! s := match x with
                         | VUndef | VNull => Normal EmptyString
                         | _ => ToString render x
                         end in
               match rest with
               | [] => Normal s
               | _ => let! t := join rest in Normal (s +:+ "," +:+ t)
               end
           end).
    revert e. induction items as [|x rest IHrest]; intros e; [discriminate|].
    change (join (x :: rest)) with
      (let! s := match x with
                 | VUndef | VNull => Normal EmptyString
                 | _ => ToString render x
                 end in
       match rest with
       | [] => Normal s
       | _ => let! t := join rest in Normal (s +:+ "," +:+ t)
       end).
    destruct (match x with
              | VUndef | VNull => Normal EmptyString
              | _ => ToString render x
              end) as [sx|ex] eqn:Ex; cbv beta iota delta [bind].
    + destruct rest as [|y rest']; [discriminate|].
      destruct (join (y :: rest')) as [t|et]; [discriminate|].
      intros H. injection H as <-. apply IHrest. reflexivity.
    + intros H. injection H as <-. pose proof (IH x ex) as IHx.
      destruct x; try discriminate Ex; apply IHx; exact Ex.
  - destruct (has_own "toString" props); [|discriminate].
    intros H. injection H as <-. reflexivity.
Qed.

Lemma of_completion_cases (c : completion string) :
  (exists s, of_completion c = Returned (Plain s)) \/
  (exists e, c = Throw e /\ of_completion c = Raised (mcp_internal e)).
Proof. destruct c as [s|e]; simpl; eauto. Qed.

Lemma awaited_Connected (env : send_outcome) (cmd : WsCommand)
      (k : WsResponse -> completion string) (srv : Server) :
  Connected srv ->
  awaited env cmd k srv =
  match env with
  | Written =>
      (of_completion
         (k (mkResponse success (Some (VObj [("command", VStr (command cmd))]))
               None)),
       ws_send cmd srv)
  | SendThrows e =>
      (Returned (Plain ("Error: " +:+ ("Error sending command: " +:+ cause e))),
       srv)
  end.
Proof.
  intros Hc. unfold awaited. rewrite (sendCommand_Connected env cmd srv Hc).
  destruct env as [|e]; [reflexivity|]. simpl.
  destruct (cause e); reflexivity.
Qed.

Lemma awaited_Disconnected (env : send_outcome) (cmd : WsCommand)
      (k : WsResponse -> completion string) (srv : Server) :
  Disconnected srv ->
  awaited env cmd k srv =
  (Returned (Plain "Error: Not connected to mGB MIDI sequencer"), srv).
Proof.
  intros Hd. unfold awaited. rewrite (sendCommand_Disconnected env cmd srv Hd).
  reflexivity.
Qed.

Lemma validated_cases (verdict : completion bool) (invalid : string)
      (k : Server -> outcome rendered * Server) (srv : Server) :
  (exists e, verdict = Throw e /\
             validated verdict invalid k srv = (Raised (mcp_internal e), srv)) \/
  (verdict = Normal false /\
   validated verdict invalid k srv = (Raised (mcp_error InvalidParams invalid), srv)) \/
  (verdict = Normal true /\ validated verdict invalid k srv = k srv).
Proof. destruct verdict as [[|]|e]; simpl; eauto 6. Qed.

End Outcomes.

Section Dispatch.

Variable render : Q -> string.

Lemma ToString3_Throw (a b c : any) (f : string -> string -> string -> string)
      (e : js_error) :
  (let! t := ToString render a in
   let! p := ToString render b in
   let! v := ToString render c in Normal (f t p v)) = Throw e ->
  e = TypeError_to_primitive.
Proof.
  destruct (ToString render a) as [t|ea] eqn:Ea; simpl;
    [|intros H; injection H as <-; apply (ToString_Throw render a), Ea].
  destruct (ToString render b) as [p|eb] eqn:Eb; simpl;
    [|intros H; injection H as <-; apply (ToString_Throw render b), Eb].
  destruct (ToString render c) as [v|ec] eqn:Ec; simpl;
    [discriminate|intros H; injection H as <-; apply (ToString_Throw render c), Ec].
Qed.

(** The three ways an awaited command ends. *)
Lemma awaited_modes (env : send_outcome) (cmd : WsCommand)
      (k : WsResponse -> completion string) (srv : Server) :
  (Disconnected srv /\
   awaited env cmd k srv =
   (Returned (Plain "Error: Not connected to mGB MIDI sequencer"), srv)) \/
  (Connected srv /\ exists e, env = SendThrows e /\
   awaited env cmd k srv =
   (Returned (Plain ("Error: " +:+ ("Error sending command: " +:+ cause e))), srv)) \/
  (Connected srv /\ env = Written /\
   awaited env cmd k srv = (of_completion (k (optimistic cmd)), ws_send cmd srv)).
Proof.
  destruct (Connected_or_Disconnected srv) as [Hc | Hd].
  - right. rewrite (awaited_Connected env cmd k srv Hc).
    destruct env as [|e]; [right | left; eauto]. auto.
  - left. split; [exact Hd | apply awaited_Disconnected, Hd].
Qed.

Lemma awaited_call_mode (env : send_outcome) (name : string) (cmd : WsCommand)
      (k : WsResponse -> completion string) (srv : Server) (t : string) :
  k (optimistic cmd) = Normal t ->
  call_mode env name srv (awaited env cmd k srv).
Proof.
  intros Hk.
  destruct (awaited_modes env cmd k srv)
    as [[Hd ->] | [(Hc & e & He & ->) | (Hc & He & ->)]].
  - apply mode_not_connected; [exact Hd | reflexivity].
  - eapply mode_write_failed; [exact Hc | exact He | reflexivity].
  - rewrite Hk. eapply mode_written; [exact Hc | exact He | reflexivity].
Qed.

Lemma validated_call_mode (env : send_outcome) (name : string)
      (verdict : completion bool) (invalid : string)
      (k : Server -> outcome rendered * Server) (srv : Server) :
  call_mode env name srv (k srv) ->
  call_mode env name srv (validated verdict invalid k srv).
Proof.
  intros Hk. destruct verdict as [[|]|e]; simpl.
  - exact Hk.
  - eapply mode_invalid. reflexivity.
  - eapply mode_threw. reflexivity.
Qed.

Lemma unawaited_call_mode (env : send_outcome) (name : string) (cmd : WsCommand)
      (a b c : any) (f : string -> string -> string -> string) (srv : Server) :
  name = "update_cc" \/ name = "update_synth_param" ->
  call_mode env name srv
    (of_completion
       (let! t := ToString render a in
        let! p := ToString render b in
        let! v := ToString render c in Normal (f t p v)),
     snd (sendCommand env cmd srv)).
Proof.
  intros Hn. apply (mode_unawaited env name srv _ cmd Hn); [reflexivity|].
  simpl.
  destruct (let! t := ToString render a in
            let! p := ToString render b in
            let! v := ToString render c in Normal (f t p v)) as [s|e] eqn:E.
  - left. simpl. eauto.
  - right. simpl. rewrite (ToString3_Throw a b c f e E). reflexivity.
Qed.

Lemma callTool_call_mode (env : send_outcome) (name : string) (args : any)
      (srv : Server) :
  call_mode env name srv (callTool render env name args srv).
Proof.
  unfold callTool.
  repeat match goal with
         | |- context [if String.eqb name ?s then _ else _] =>
             destruct (String.eqb_spec name s)
         end;
    try (apply validated_call_mode);
    try (eapply awaited_call_mode; reflexivity).
  - unfold tool_get_midi_ports.
    destruct (Connected_or_Disconnected srv) as [Hc | Hd].
    + rewrite (sendCommand_Connected env _ srv Hc). destruct env as [|e0].
      * eapply mode_written; [exact Hc | reflexivity | reflexivity].
      * simpl. eapply mode_write_failed; [exact Hc | reflexivity |].
        destruct (cause e0); reflexivity.
    + rewrite (sendCommand_Disconnected env _ srv Hd).
      apply mode_not_connected; [exact Hd | reflexivity].
  - apply unawaited_call_mode. left. assumption.
  - unfold tool_update_synth_param.
    destruct (Get args "track") as [tr|e0].
    + apply unawaited_call_mode. right. assumption.
    + eapply mode_threw. reflexivity.
  - apply mode_unknown; [reflexivity | | assumption].
    unfold tools. simpl. intuition congruence.
Qed.

End Dispatch.

(** X14.  The dispatcher answers [MethodNotFound] exactly for the names
    that are neither declared by the tool list nor
    ["update_synth_param"]: for such a name the call ends with the error
    ["Unknown tool: <name>"] and the server is left as it was, whatever
    the arguments; for every declared tool, and for
    ["update_synth_param"], it never ends that way. *)
Theorem unknown_tool_iff_undeclared :
  forall (render : Q -> string) (env : send_outcome) (name : string)
         (args : any) (srv : Server),
    ((exists m, fst (callTool render env name args srv) =
                Raised (mcp_error MethodNotFound m)) <->
     (~ In name tools /\ name <> "update_synth_param")) /\
    (~ In name tools -> name <> "update_synth_param" ->
     callTool render env name args srv =
     (Raised (mcp_error MethodNotFound ("Unknown tool: " +:+ name)), srv)).
Proof.
  intros render env name args srv.
  assert (Hunknown : ~ In name tools -> name <> "update_synth_param" ->
            callTool render env name args srv =
            (Raised (mcp_error MethodNotFound ("Unknown tool: " +:+ name)), srv)).
  { intros Hn Hu. unfold callTool.
    repeat match goal with
           | |- context [if String.eqb name ?s then _ else _] =>
               destruct (String.eqb_spec name s) as [E|_];
                 [exfalso; first [apply Hu; exact E
                                 | apply Hn; rewrite E; simpl; tauto]|]
           end.
    reflexivity. }
  split; [split|exact Hunknown].
  - intros [m Hm].
    destruct (callTool_call_mode render env name args srv)
      as [e H | m' H | H Hn Hu | _ H | e _ _ H | t cmd _ _ H | cmd _ _ H];
      try (rewrite H in Hm; discriminate Hm).
    + auto.
    + destruct H as [[s H] | H]; rewrite H in Hm; discriminate Hm.
  - intros [Hn Hu]. rewrite (Hunknown Hn Hu). simpl. eauto.
Qed.

(** A name the server does not know, and two it does. *)
Lemma unknown_tool_iff_undeclared_witness :
  ~ In "reset" tools /\ "reset" <> "update_synth_param" /\
  callTool no_rendering Written "reset" VUndef (on_open Written boot) =
    (Raised (mcp_error MethodNotFound "Unknown tool: reset"),
     on_open Written boot) /\
  (forall m, fst (callTool no_rendering Written "toggle_play" VUndef
                    (on_open Written boot)) <>
             Raised (mcp_error MethodNotFound m)) /\
  (forall m, fst (callTool no_rendering Written "update_synth_param" VUndef
                    (on_open Written boot)) <>
             Raised (mcp_error MethodNotFound m)).
Proof.
  assert (Hn : ~ In "reset" tools).
  { simpl. intros H.
    repeat (destruct H as [H|H]; [discriminate H|]). exact H. }
  assert (Hu : "reset" <> "update_synth_param") by discriminate.
  split; [exact Hn|]. split; [exact Hu|]. split; [|split].
  - exact (proj2 (unknown_tool_iff_undeclared no_rendering Written "reset" VUndef
                    (on_open Written boot)) Hn Hu).
  - intros m H.
    destruct (proj1 (proj1 (unknown_tool_iff_undeclared no_rendering Written
                              "toggle_play" VUndef (on_open Written boot)))
                (ex_intro _ m H)) as [Hnot _].
    apply Hnot. simpl. auto.
  - intros m H.
    destruct (proj1 (proj1 (unknown_tool_iff_undeclared no_rendering Written
                              "update_synth_param" VUndef (on_open Written boot)))
                (ex_intro _ m H)) as [_ Hnot].
    apply Hnot. reflexivity.
Defined.

(** X15.  Argument errors come before any transport I/O.  When a call
    ends with an error code, the code is [InvalidParams] or
    [MethodNotFound] and the server is exactly as before; the same holds
    when it ends on a failed property read (missing arguments, or a
    [null] item in a batch). *)
Theorem argument_errors_precede_io :
  forall (render : Q -> string) (env : send_outcome) (name : string)
         (args : any) (srv : Server),
    let r := callTool render env name args srv in
    (forall (c : ErrorCode) (m : string),
        fst r = Raised (mcp_error c m) ->
        (c = InvalidParams \/ c = MethodNotFound) /\ snd r = srv) /\
    (forall (b : any) (p : string),
        fst r = Raised (mcp_internal (TypeError_read b p)) -> snd r = srv).
Proof.
  intros render env name args srv r. unfold r.
  destruct (callTool_call_mode render env name args srv)
    as [e H | m' H | H Hn Hu | _ H | e _ _ H | t cmd _ _ H | cmd _ _ H];
    try rewrite H; simpl; split; intros; try discriminate; auto.
  - match goal with E : Raised _ = Raised _ |- _ => injection E as <- _ end. auto.
  - match goal with E : Raised _ = Raised _ |- _ => injection E as <- _ end. auto.
  - destruct H as [[s H] | H]; congruence.
  - destruct H as [[s H] | H]; congruence.
Qed.

Lemma argument_errors_precede_io_witness :
  let srv := on_open Written boot in
  fst (callTool no_rendering Written "set_bpm" (VObj [("bpm", VNum 59%Q)]) srv) =
    Raised (mcp_error InvalidParams "Invalid BPM arguments") /\
  snd (callTool no_rendering Written "set_bpm" (VObj [("bpm", VNum 59%Q)]) srv) =
    srv.
Proof.
  split; [reflexivity|].
  apply (proj1 (argument_errors_precede_io no_rendering Written "set_bpm"
                  (VObj [("bpm", VNum 59%Q)]) (on_open Written boot))
           InvalidParams "Invalid BPM arguments").
  reflexivity.
Defined.

(** X16.  A command issued while disconnected is neither sent nor kept:
    whenever an awaited tool returns normally on a disconnected server,
    what it returns is the text
    ["Error: Not connected to mGB MIDI sequencer"], as a result and not
    as a raised error; when the server is connected and the write throws,
    it is the text of that failure. *)
Theorem calls_report_send_failures_as_text :
  forall (render : Q -> string) (env : send_outcome) (name : string)
         (args : any) (srv : Server) (t : rendered),
    name <> "update_cc" -> name <> "update_synth_param" ->
    fst (callTool render env name args srv) = Returned t ->
    (Disconnected srv ->
     t = Plain "Error: Not connected to mGB MIDI sequencer") /\
    (forall e : thrown,
        Connected srv -> env = SendThrows e ->
        t = Plain ("Error: Error sending command: " +:+ cause e)).
Proof.
  intros render env name args srv t Hcc Husp Ht.
  destruct (callTool_call_mode render env name args srv)
    as [e H | m' H | H Hn Hu | Hd H | e Hc He H | t' cmd Hc He H | cmd [Hn|Hn] _ _];
    try (rewrite H in Ht; simpl in Ht); try discriminate Ht; try contradiction.
  - injection Ht as <-. split; [reflexivity|].
    intros e [Hc Hw] _. destruct Hd as [Hd | Hd]; [congruence | contradiction].
  - injection Ht as <-. split.
    + intros [Hd | Hd]; destruct Hc; [congruence | contradiction].
    + intros e' _ He'. rewrite He in He'. injection He' as ->. reflexivity.
  - split.
    + intros [Hd | Hd]; destruct Hc; [congruence | contradiction].
    + intros e' _ He'. congruence.
Qed.

Lemma calls_report_send_failures_as_text_witness :
  "set_bpm" <> "update_cc" /\ "set_bpm" <> "update_synth_param" /\
  fst (callTool no_rendering Written "set_bpm" (VObj [("bpm", VNum 120%Q)]) boot) =
    Returned (Plain "Error: Not connected to mGB MIDI sequencer") /\
  Disconnected boot.
Proof.
  assert (H1 : "set_bpm" <> "update_cc") by discriminate.
  assert (H2 : "set_bpm" <> "update_synth_param") by discriminate.
  assert (Hd : Disconnected boot) by (left; reflexivity).
  split; [exact H1|]. split; [exact H2|]. split; [|exact Hd].
  destruct (fst (callTool no_rendering Written "set_bpm"
                   (VObj [("bpm", VNum 120%Q)]) boot)) as [t|e] eqn:E;
    [|discriminate E].
  f_equal.
  exact (proj1 (calls_report_send_failures_as_text no_rendering Written "set_bpm"
                  (VObj [("bpm", VNum 120%Q)]) boot t H1 H2 E) Hd).
Defined.

(** X17.  With the optimistic response, the text of a successful call
    never shows what the device did: the response holds the command name
    only, so the fields the texts read from it are [undefined].  On a
    connected server whose write succeeds, [set_bpm] answers
    ["BPM set to undefined"] for every accepted tempo, [toggle_play]
    always ["Playback stopped"], [toggle_midi_clock] always
    ["MIDI clock disabled"], and so on, whatever the arguments. *)
Theorem success_texts_ignore_arguments :
  forall (render : Q -> string) (args : any) (srv : Server),
    Connected srv ->
    let text name := fst (callTool render Written name args srv) in
    text "toggle_play" = Returned (Plain "Playback stopped") /\
    (isSetBpmArgs args = Normal true ->
     text "set_bpm" = Returned (Plain "BPM set to undefined")) /\
    (isToggleStepArgs args = Normal true ->
     text "toggle_step" =
     Returned (Plain "Step [undefined, undefined] set to OFF")) /\
    (isSetNoteArgs args = Normal true ->
     text "set_note" =
     Returned (Plain "Note at [undefined, undefined] set to undefined")) /\
    (isSendPresetArgs args = Normal true ->
     text "send_preset" =
     Returned (Plain ("Preset " +:+ dquote +:+ "undefined" +:+ dquote +:+
                      " applied successfully"))) /\
    (isBatchUpdateArgs args = Normal true ->
     text "batch_update" = Returned (Plain "Batch update completed successfully")) /\
    text "get_midi_ports" =
      Returned (JSON_stringify (VObj [("command", VStr "get_available_ports")])) /\
    (isChangeMidiOutputArgs args = Normal true ->
     text "change_midi_output" = Returned (Plain "MIDI output changed to undefined")) /\
    (isChangeMidiInputArgs args = Normal true ->
     text "change_midi_input" = Returned (Plain "MIDI input changed to undefined")) /\
    (isToggleMidiClockArgs args = Normal true ->
     text "toggle_midi_clock" = Returned (Plain "MIDI clock disabled")).
Proof.
  intros render args srv Hc text. unfold text.
  assert (Haw : forall cmd k,
             fst (awaited Written cmd k srv) = of_completion (k (optimistic cmd))).
  { intros cmd k. rewrite (awaited_Connected Written cmd k srv Hc). reflexivity. }
  repeat split.
  - change (callTool render Written "toggle_play" args srv)
      with (tool_toggle_play Written srv).
    unfold tool_toggle_play. rewrite Haw. reflexivity.
  - intros Hv. change (callTool render Written "set_bpm" args srv)
      with (tool_set_bpm render Written args srv).
    unfold tool_set_bpm, validated. rewrite Hv, Haw. reflexivity.
  - intros Hv. change (callTool render Written "toggle_step" args srv)
      with (tool_toggle_step render Written args srv).
    unfold tool_toggle_step, validated. rewrite Hv, Haw. reflexivity.
  - intros Hv. change (callTool render Written "set_note" args srv)
      with (tool_set_note render Written args srv).
    unfold tool_set_note, validated. rewrite Hv, Haw. reflexivity.
  - intros Hv. change (callTool render Written "send_preset" args srv)
      with (tool_send_preset render Written args srv).
    unfold tool_send_preset, validated. rewrite Hv, Haw. reflexivity.
  - intros Hv. change (callTool render Written "batch_update" args srv)
      with (tool_batch_update Written args srv).
    unfold tool_batch_update, validated. rewrite Hv, Haw. reflexivity.
  - change (callTool render Written "get_midi_ports" args srv)
      with (tool_get_midi_ports Written srv).
    unfold tool_get_midi_ports.
    rewrite (sendCommand_Connected Written _ srv Hc). reflexivity.
  - intros Hv. change (callTool render Written "change_midi_output" args srv)
      with (tool_change_midi_output render Written args srv).
    unfold tool_change_midi_output, validated. rewrite Hv, Haw. reflexivity.
  - intros Hv. change (callTool render Written "change_midi_input" args srv)
      with (tool_change_midi_input render Written args srv).
    unfold tool_change_midi_input, validated. rewrite Hv, Haw. reflexivity.
  - intros Hv. change (callTool render Written "toggle_midi_clock" args srv)
      with (tool_toggle_midi_clock Written args srv).
    unfold tool_toggle_midi_clock, validated. rewrite Hv, Haw. reflexivity.
Qed.

Lemma success_texts_ignore_arguments_witness :
  let srv := on_open Written boot in
  let args := VObj [("bpm", VNum 140%Q); ("enabled", VBool true)] in
  Connected srv /\
  isSetBpmArgs args = Normal true /\
  isToggleMidiClockArgs args = Normal true /\
  fst (callTool no_rendering Written "set_bpm" args srv) =
    Returned (Plain "BPM set to undefined") /\
  fst (callTool no_rendering Written "toggle_midi_clock" args srv) =
    Returned (Plain "MIDI clock disabled").
Proof.
  assert (Hc : Connected (on_open Written boot))
    by (split; [reflexivity | discriminate]).
  split; [exact Hc|]. split; [reflexivity|]. split; [reflexivity|].
  destruct (success_texts_ignore_arguments no_rendering
              (VObj [("bpm", VNum 140%Q); ("enabled", VBool true)])
              (on_open Written boot) Hc)
    as (_ & Hbpm & _ & _ & _ & _ & _ & _ & _ & Hclock).
  split; [apply Hbpm | apply Hclock]; reflexivity.
Defined.

(** X18.  [update_synth_param] can fail after it has sent: when the
    [track] argument is an object that has an own [toString] property,
    building the acknowledgment throws, and the call ends with an
    [InternalError] although the [update_cc] command has already been
    handed to [sendCommand] (and written, on a connected server). *)
Theorem update_synth_param_fails_after_send :
  forall (render : Q -> string) (env : send_outcome) (args : any) (srv : Server)
         (props : list (string * any)),
    field args "track" = VObj props ->
    has_own "toString" props = true ->
    let cmd := mkCommand "update_cc"
                 [("track", field args "track"); ("cc", field args "param");
                  ("value", field args "value")] in
    callTool render env "update_synth_param" args srv =
      (Raised (mcp_internal TypeError_to_primitive),
       snd (sendCommand env cmd srv)) /\
    (Connected srv -> env = Written ->
     transport (snd (callTool render env "update_synth_param" args srv)) =
     (transport srv ++ [cmd])%list).
Proof.
  intros render env args srv props Ht Hown cmd.
  assert (Hn : ~ nullish args)
    by (eapply field_not_nullish; [exact Ht | discriminate]).
  assert (H : callTool render env "update_synth_param" args srv =
              (Raised (mcp_internal TypeError_to_primitive),
               snd (sendCommand env cmd srv))).
  { change (callTool render env "update_synth_param" args srv)
      with (tool_update_synth_param render env args srv).
    unfold tool_update_synth_param. rewrite (Get_field _ _ Hn).
    unfold cmd. rewrite Ht. simpl ToString. rewrite Hown. reflexivity. }
  split; [exact H|]. intros Hc ->. rewrite H.
  rewrite (sendCommand_Connected Written cmd srv Hc). reflexivity.
Qed.

Lemma update_synth_param_fails_after_send_witness :
  let track := [("toString", VNum 1%Q)] in
  let args := VObj [("track", VObj track); ("param", VStr "cc1");
                    ("value", VNum 5%Q)] in
  field args "track" = VObj track /\
  has_own "toString" track = true /\
  fst (callTool no_rendering Written "update_synth_param" args
         (on_open Written boot)) =
  Raised (mcp_internal TypeError_to_primitive).
Proof.
  split; [reflexivity|]. split; [reflexivity|].
  rewrite (proj1 (update_synth_param_fails_after_send no_rendering Written
                    (VObj [("track", VObj [("toString", VNum 1%Q)]);
                           ("param", VStr "cc1"); ("value", VNum 5%Q)])
                    (on_open Written boot) [("toString", VNum 1%Q)]
                    eq_refl eq_refl)).
  reflexivity.
Defined.

(** ** Validators, continued *)

Lemma all_digits_spec (s : string) :
  all_digits s = true <->
  Forall (fun c => (48 <= nat_of_ascii c <= 57)%nat) (list_ascii_of_string s).
Proof.
  induction s as [|c s IH]; simpl.
  - split; [constructor | reflexivity].
  - unfold is_digit at 1. rewrite !andb_true_iff, IH, !Nat.leb_le. split.
    + intros [[H1 H2] H]. constructor; [lia | exact H].
    + intros H. inversion H; subst. split; [lia | assumption].
Qed.

Lemma matches_cc_digits_spec (s : string) :
  matches_cc_digits s = true <-> exists ds, s = "cc" +:+ ds /\ digits ds.
Proof.
  unfold matches_cc_digits, digits. split.
  - intros H.
    destruct s as [|c1 s1]; [discriminate H|].
    destruct c1 as [[] [] [] [] [] [] [] []]; try discriminate H.
    destruct s1 as [|c2 s2]; [discriminate H|].
    destruct c2 as [[] [] [] [] [] [] [] []]; try discriminate H.
    destruct s2 as [|d rest]; [discriminate H|].
    exists (String d rest). split; [reflexivity|].
    split; [discriminate|]. apply (all_digits_spec (String d rest)). exact H.
  - intros (ds & -> & Hne & Hd). destruct ds as [|d rest]; [contradiction|].
    simpl. apply (all_digits_spec (String d rest)) in Hd. exact Hd.
Qed.

(** X19.  [isUpdateCcArgs] accepts exactly the arguments whose [track]
    is one of the five voices, whose [value] is a Number within 0..127
    and whose [cc] is either a Number within 0..127 or a string made of
    ["cc"] and one or more decimal digits.  The string form carries no
    bound on the number it spells. *)
Theorem isUpdateCcArgs_iff :
  forall args : any,
    isUpdateCcArgs args = Normal true <->
    (exists t, field args "track" = VStr t /\ In t validTracks) /\
    ((exists ds, field args "cc" = VStr ("cc" +:+ ds) /\ digits ds) \/
     (exists q, field args "cc" = VNum (Finite q) /\ (0 <= q)%Q /\ (q <= 127)%Q)) /\
    (exists q, field args "value" = VNum (Finite q) /\ (0 <= q)%Q /\ (q <= 127)%Q).
Proof.
  intros args.
  assert (Hcc : isValidCC (field args "cc") = true <->
                ((exists ds, field args "cc" = VStr ("cc" +:+ ds) /\ digits ds) \/
                 (exists q, field args "cc" = VNum (Finite q) /\
                            (0 <= q)%Q /\ (q <= 127)%Q))).
  { destruct (field args "cc") as [| | |n|s| |];
      try (split; [discriminate | intros [(ds & E & _) | (q & E & _)]; discriminate E]).
    - change (isValidCC (VNum n)) with (in_range 0 127 (VNum n)).
      rewrite in_range_spec. split.
      + intros (q & E & H). right. eauto.
      + intros [(ds & E & _) | H]; [discriminate E | exact H].
    - change (isValidCC (VStr s)) with (matches_cc_digits s).
      rewrite matches_cc_digits_spec. split.
      + intros (ds & -> & H). left. eauto.
      + intros [(ds & E & H) | (q & E & _)]; [|discriminate E].
        injection E as ->. eauto. }
  assert (Htr : forall v, includes_str validTracks v = true <->
                          exists t, v = VStr t /\ In t validTracks).
  { intros v. destruct v as [| | | |t| |]; simpl;
      try (split; [discriminate | intros (t' & E & _); discriminate E]).
    rewrite !orb_true_iff, !String.eqb_eq. split.
    - intros H. exists t. split; [reflexivity|].
      destruct H as [->|[->|[->|[->|[->|Hf]]]]];
        [simpl; auto 10 .. | discriminate Hf].
    - intros (t' & E & Hin). injection E as <-. simpl in Hin.
      destruct Hin as [<-|[<-|[<-|[<-|[<-|[]]]]]]; auto 10. }
  split.
  - unfold isUpdateCcArgs.
    destruct (Get args "track") as [tr|e] eqn:Ht; simpl; [|discriminate].
    apply Get_Normal_inv in Ht as [_ ->]. intros H. injection H as H.
    rewrite !andb_true_iff in H. destruct H as [[[H1 H2] _] H4].
    split; [apply Htr, H1|]. split; [apply Hcc, H2 | apply in_range_spec, H4].
  - intros ((t & Ht & Hin) & Hc & Hv).
    unfold isUpdateCcArgs.
    rewrite Get_field by (eapply field_not_nullish; [exact Ht | discriminate]).
    simpl. f_equal. rewrite !andb_true_iff. repeat split.
    + apply Htr. eauto.
    + apply Hcc, Hc.
    + destruct Hv as (q & -> & _). reflexivity.
    + apply in_range_spec, Hv.
Qed.

(** X20.  [isSetNoteArgs] accepts exactly the arguments with numeric
    [row] and [col], a [note] within 0..127, and a [divide] that is
    either absent or one of 1, 2, 3; a [divide] of [null] is rejected. *)
Theorem isSetNoteArgs_iff :
  forall args : any,
    (isSetNoteArgs args = Normal true <->
     is_number (field args "row") /\ is_number (field args "col") /\
     note_ok (field args "note") /\
     (field args "divide" = VUndef \/ divide_ok (field args "divide"))) /\
    (~ nullish args -> field args "divide" = VNull ->
     isSetNoteArgs args = Normal false).
Proof.
  intros args. split; [split|].
  - intros H. apply isSetNoteArgs_inv in H
      as (r & c & q & Hr & Hc & Hn & H0 & H1 & Hd).
    unfold is_number, note_ok. rewrite Hr, Hc, Hn. eauto 10.
  - intros ([r Hr] & [c Hc] & Hn & Hd).
    unfold isSetNoteArgs.
    rewrite Get_field by (eapply field_not_nullish; [exact Hr | discriminate]).
    simpl. f_equal. rewrite Hr, Hc. simpl.
    apply is_note_spec in Hn. unfold is_note in Hn. rewrite Hn. simpl.
    destruct Hd as [-> | Hd]; [reflexivity|].
    apply includes_1_2_3_spec in Hd.
    destruct (field args "divide"); try discriminate Hd; exact Hd.
  - intros Hn Hd. unfold isSetNoteArgs. rewrite (Get_field _ _ Hn). simpl.
    rewrite Hd. simpl. rewrite !andb_false_r. reflexivity.
Qed.

Lemma isSetNoteArgs_iff_witness :
  let args := VObj [("row", VNum 0%Q); ("col", VNum 3%Q); ("note", VNum 60%Q);
                    ("divide", VNull)] in
  ~ nullish args /\ field args "divide" = VNull /\
  isSetNoteArgs args = Normal false.
Proof.
  assert (Hn : ~ nullish (VObj [("row", VNum 0%Q); ("col", VNum 3%Q);
                                ("note", VNum 60%Q); ("divide", VNull)]))
    by (intros [E|E]; discriminate E).
  split; [exact Hn|]. split; [reflexivity|].
  apply (proj2 (isSetNoteArgs_iff _) Hn). reflexivity.
Defined.

(** [isToggleStepArgs] checks types only: it accepts exactly the
    arguments whose [row] and [col] are both Numbers, and so accepts any
    pair of Numbers, negative, fractional or not finite. *)
Theorem isToggleStepArgs_iff :
  (forall args : any,
      isToggleStepArgs args = Normal true <->
      is_number (field args "row") /\ is_number (field args "col")) /\
  (forall r c : number,
      isToggleStepArgs (VObj [("row", VNum r); ("col", VNum c)]) = Normal true).
Proof.
  split; [|reflexivity].
  intros args. split.
  - intros H. apply isToggleStepArgs_inv in H as (r & c & Hr & Hc).
    unfold is_number. eauto.
  - intros ([r Hr] & [c Hc]). unfold isToggleStepArgs.
    rewrite Get_field by (eapply field_not_nullish; [exact Hr | discriminate]).
    simpl. rewrite Hr, Hc. reflexivity.
Qed.

(** X21.  An argument that is a primitive or an array (anything but an
    object, [null] and [undefined]) is rejected by every validator with a
    plain [false]: no property of it is ever found. *)
Theorem validators_reject_non_objects :
  forall v : any,
    ~ nullish v -> (forall props, v <> VObj props) ->
    isSetBpmArgs v = Normal false /\
    isToggleStepArgs v = Normal false /\
    isSetNoteArgs v = Normal false /\
    isBatchUpdateArgs v = Normal false /\
    isSendPresetArgs v = Normal false /\
    isChangeMidiOutputArgs v = Normal false /\
    isChangeMidiInputArgs v = Normal false /\
    isToggleMidiClockArgs v = Normal false /\
    isUpdateCcArgs v = Normal false.
Proof.
  intros v Hn Ho.
  destruct v as [| | b| n| s| items| props];
    try (exfalso; apply Hn; unfold nullish; auto; fail);
    try (repeat split; reflexivity).
  exfalso. apply (Ho props). reflexivity.
Qed.

Lemma validators_reject_non_objects_witness :
  ~ nullish (VStr "120") /\ (forall props, VStr "120" <> VObj props) /\
  isSetBpmArgs (VStr "120") = Normal false.
Proof.
  assert (Hn : ~ nullish (VStr "120")) by (intros [E|E]; discriminate E).
  assert (Ho : forall props, VStr "120" <> VObj props) by discriminate.
  split; [exact Hn|]. split; [exact Ho|].
  apply (validators_reject_non_objects (VStr "120") Hn Ho).
Defined.

Lemma isBatchUpdate_false (update : any) :
  ~ nullish update -> ~ matches_schema update ->
  isBatchUpdate update = Normal false.
Proof.
  intros Hn Hbad. destruct (isBatchUpdate_total update Hn) as [[|] Hb];
    [|exact Hb].
  exfalso. apply Hbad, isBatchUpdate_spec, Hb.
Qed.

Lemma every_app_true (f : any -> completion bool) (good rest : list any) :
  Forall (fun x => f x = Normal true) good ->
  every f (good ++ rest) = every f rest.
Proof.
  induction 1 as [|x good Hx _ IH]; simpl; [reflexivity|].
  rewrite Hx. simpl. exact IH.
Qed.

(** X22.  The first offending item decides how a batch is refused.
    After items that all match the schema, an item that is [null] or
    [undefined] makes the validator throw (the caller gets an
    [InternalError]), any other item that does not match makes it return
    [false] (the caller gets [InvalidParams]); the items that follow are
    not looked at.  A batch with no item is accepted. *)
Theorem first_offending_item_decides :
  forall (good rest : list any) (bad : any),
    Forall matches_schema good -> ~ matches_schema bad ->
    let args := VObj [("updates", VArr (good ++ bad :: rest))] in
    (nullish bad -> isBatchUpdateArgs args = Throw (TypeError_read bad "type")) /\
    (~ nullish bad -> isBatchUpdateArgs args = Normal false) /\
    isBatchUpdateArgs (VObj [("updates", VArr [])]) = Normal true.
Proof.
  intros good rest bad Hgood Hbad args.
  assert (H : isBatchUpdateArgs args = every isBatchUpdate (bad :: rest)).
  { unfold args, isBatchUpdateArgs. simpl. apply every_app_true.
    eapply List.Forall_impl; [|exact Hgood].
    intros x Hx. apply isBatchUpdate_spec, Hx. }
  rewrite H. simpl. split; [|split; [|reflexivity]].
  - intros Hn. unfold isBatchUpdate. rewrite (Get_nullish _ _ Hn). reflexivity.
  - intros Hn. rewrite (isBatchUpdate_false bad Hn Hbad). reflexivity.
Qed.

Lemma first_offending_item_decides_witness :
  let ok := VObj [("type", VStr "divide"); ("row", VNum 0%Q); ("col", VNum 1%Q);
                  ("divide", VNum 3%Q)] in
  Forall matches_schema [ok] /\ ~ matches_schema (VNum 5%Q) /\
  isBatchUpdateArgs (VObj [("updates", VArr [ok; VNum 5%Q; VNull])]) = Normal false.
Proof.
  assert (Hok : Forall matches_schema
                  [VObj [("type", VStr "divide"); ("row", VNum 0%Q);
                         ("col", VNum 1%Q); ("divide", VNum 3%Q)]]).
  { constructor; [|constructor]. apply isBatchUpdate_spec. reflexivity. }
  assert (Hbad : ~ matches_schema (VNum 5%Q)).
  { intros H. apply isBatchUpdate_spec in H. discriminate H. }
  split; [exact Hok|]. split; [exact Hbad|].
  apply (first_offending_item_decides _ [VNull] (VNum 5%Q) Hok Hbad).
  intros [E|E]; discriminate E.
Defined.

(** ** Endpoint resolution *)

Lemma strip_prefix_spec (p s r : string) :
  strip_prefix p s = Some r -> s = p +:+ r.
Proof.
  revert s. induction p as [|a p IH]; intros s; simpl.
  - intros H. injection H as ->. reflexivity.
  - destruct s as [|b s]; [discriminate|].
    destruct (Ascii.eqb_spec a b) as [->|_]; [|discriminate].
    intros H. rewrite (IH s H). reflexivity.
Qed.

Lemma span_spec (f : ascii -> bool) (s taken left : string) :
  span f s = (taken, left) ->
  s = taken +:+ left /\
  Forall (fun c => f c = true) (list_ascii_of_string taken).
Proof.
  revert taken left. induction s as [|c s IH]; intros taken left; simpl.
  - intros H. injection H as <- <-. split; [reflexivity | constructor].
  - destruct (f c) eqn:Hc.
    + destruct (span f s) as [t l]. intros H. injection H as <- <-.
      destruct (IH t l eq_refl) as [-> Hall].
      split; [reflexivity | constructor; assumption].
    + intros H. injection H as <- <-. split; [reflexivity | constructor].
Qed.

Lemma is_empty_false (s : string) : is_empty s = false -> s <> EmptyString.
Proof. destruct s; [discriminate | discriminate]. Qed.

Lemma append_assoc' (a b c : string) : (a +:+ b) +:+ c = a +:+ (b +:+ c).
Proof.
  induction a as [|x a IH]; [reflexivity|].
  change (String x ((a +:+ b) +:+ c) = String x (a +:+ (b +:+ c))).
  f_equal. exact IH.
Qed.

Lemma match_at_sound (s found : string) :
  match_at s = Some found ->
  exists host port post,
    s = log_marker +:+ found +:+ post /\
    found = "ws://" +:+ host +:+ ":" +:+ port /\
    host <> EmptyString /\
    Forall (fun c => host_char c = true) (list_ascii_of_string host) /\
    digits port.
Proof.
  unfold match_at.
  destruct (strip_prefix (log_marker +:+ "ws://") s) as [r|] eqn:Hp; [|discriminate].
  apply strip_prefix_spec in Hp.
  destruct (span host_char r) as [host r1] eqn:Hh.
  apply span_spec in Hh as [Hr Hhost].
  destruct (is_empty host) eqn:Hne; [discriminate|].
  destruct r1 as [|c r2]; [discriminate|].
  destruct (Ascii.eqb_spec c ":") as [->|_]; [|discriminate].
  destruct (span is_digit r2) as [port post] eqn:Hq.
  apply span_spec in Hq as [Hr2 Hport].
  destruct (is_empty port) eqn:Hpe; [discriminate|].
  intros H. injection H as <-.
  exists host, port, post. split; [|split; [reflexivity|split; [|split]]].
  - rewrite Hp, Hr, Hr2. rewrite !append_assoc'. reflexivity.
  - apply is_empty_false, Hne.
  - exact Hhost.
  - split; [apply is_empty_false, Hpe|].
    eapply List.Forall_impl; [|exact Hport].
    intros ch Hch. unfold is_digit in Hch.
    apply andb_true_iff in Hch as [H1 H2].
    apply Nat.leb_le in H1. apply Nat.leb_le in H2. lia.
Qed.

Lemma log_match_sound (s found : string) :
  log_match s = Some found ->
  exists pre host port post,
    s = pre +:+ log_marker +:+ found +:+ post /\
    found = "ws://" +:+ host +:+ ":" +:+ port /\
    host <> EmptyString /\
    Forall (fun c => host_char c = true) (list_ascii_of_string host) /\
    digits port.
Proof.
  induction s as [|c s IH].
  - intros H. vm_compute in H. discriminate H.
  - change (log_match (String c s))
      with (match match_at (String c s) with
            | Some f => Some f
            | None => log_match s
            end).
    destruct (match_at (String c s)) as [f|] eqn:Hm.
    + intros H. injection H as ->.
      destruct (match_at_sound _ _ Hm) as (host & port & post & H & Hrest).
      exists EmptyString, host, port, post. split; [exact H | exact Hrest].
    + intros H. destruct (IH H) as (pre & host & port & post & -> & Hrest).
      exists (String c pre), host, port, post. split; [reflexivity | exact Hrest].
Qed.

Lemma scan_logs_spec (logs : list file) (found : string) :
  scan_logs logs = Some found <->
  exists before bytes after,
    logs = (before ++ content bytes :: after)%list /\
    log_match bytes = Some found /\
    Forall (fun f => f = absent \/
                     exists b, f = content b /\ log_match b = None) before.
Proof.
  induction logs as [|f logs IH]; simpl.
  - split; [discriminate|].
    intros (before & bytes & after & H & _). destruct before; discriminate H.
  - destruct f as [| |b].
    + rewrite IH. split.
      * intros (before & bytes & after & -> & Hm & Hb).
        exists (absent :: before), bytes, after.
        split; [reflexivity|]. split; [exact Hm|]. constructor; auto.
      * intros (before & bytes & after & H & Hm & Hb).
        destruct before as [|f0 before]; [discriminate H|].
        injection H as <- ->. inversion Hb; subst.
        exists before, bytes, after. auto.
    + split; [discriminate|].
      intros (before & bytes & after & H & Hm & Hb).
      destruct before as [|f0 before]; [discriminate H|].
      injection H as <- ->. inversion Hb as [|? ? [E | (b & E & _)]]; discriminate E.
    + destruct (log_match b) as [g|] eqn:Hg.
      * split.
        -- intros H. injection H as ->. exists [], b, logs. auto.
        -- intros (before & bytes & after & H & Hm & Hb).
           destruct before as [|f0 before].
           ++ injection H as -> ->. congruence.
           ++ injection H as <- ->.
              inversion Hb as [|? ? [E | (b' & E & Hn)]]; [discriminate E|].
              injection E as <-. congruence.
      * rewrite IH. split.
        -- intros (before & bytes & after & -> & Hm & Hb).
           exists (content b :: before), bytes, after.
           split; [reflexivity|]. split; [exact Hm|]. constructor; eauto.
        -- intros (before & bytes & after & H & Hm & Hb).
           destruct before as [|f0 before].
           ++ injection H as -> ->. congruence.
           ++ injection H as <- ->. inversion Hb; subst.
              exists before, bytes, after. auto.
Qed.

Lemma getWebSocketAddress_no_override (env : Environment) :
  no_override env ->
  getWebSocketAddress env =
  match
    match config_json env with
    | config parsed =>
        match Get parsed "websocketUrl" with
        | Normal v => if truthy v then Some v else None
        | Throw _ => None
        end
    | _ => None
    end
  with
  | Some v => v
  | None =>
      match scan_logs (app_logs env) with
      | Some found => VStr found
      | None =>
          match networkInterfaces env with
          | Some interfaces =>
              match getLocalIpAddresses interfaces with
              | ip :: _ => VStr ("ws://" +:+ ip +:+ ":8765")
              | [] => VStr "ws://localhost:8765"
              end
          | None => VStr "ws://localhost:8765"
          end
      end
  end.
Proof.
  intros [H | H]; unfold getWebSocketAddress; rewrite H; reflexivity.
Qed.

Lemma getWebSocketAddress_no_config (env : Environment) :
  no_override env -> no_config_url env ->
  getWebSocketAddress env =
  match scan_logs (app_logs env) with
  | Some found => VStr found
  | None =>
      match networkInterfaces env with
      | Some interfaces =>
          match getLocalIpAddresses interfaces with
          | ip :: _ => VStr ("ws://" +:+ ip +:+ ":8765")
          | [] => VStr "ws://localhost:8765"
          end
      | None => VStr "ws://localhost:8765"
      end
  end.
Proof.
  intros Ho Hc. rewrite (getWebSocketAddress_no_override env Ho).
  unfold no_config_url in Hc. destruct (config_json env) as [| |parsed];
    try reflexivity.
  destruct Hc as [Hn | Hf].
  - rewrite (Get_nullish _ _ Hn). reflexivity.
  - destruct (Get parsed "websocketUrl") as [v|e] eqn:Hg; [|reflexivity].
    apply Get_Normal_inv in Hg as [_ ->]. rewrite Hf. reflexivity.
Qed.

Lemma scan_logs_nonempty (logs : list file) (found : string) :
  scan_logs logs = Some found -> exists rest, found = "ws://" +:+ rest.
Proof.
  intros H. apply scan_logs_spec in H as (_ & bytes & _ & _ & Hm & _).
  apply log_match_sound in Hm as (_ & host & port & _ & _ & -> & _).
  eauto.
Qed.

(** X23.  Resolution goes by fixed precedence.  A non-empty
    [WEBSOCKET_URL] is the result whatever the files and interfaces hold;
    an empty one counts as unset.  Failing that, a truthy [websocketUrl]
    of [config.json] is the result; failing that, the address found in
    the logs; failing that, the first local address, on port 8765; and
    with nothing available, ["ws://localhost:8765"]. *)
Theorem endpoint_resolution_order :
  forall env : Environment,
    (forall s : string,
        WEBSOCKET_URL env = Some s -> s <> EmptyString ->
        getWebSocketAddress env = VStr s) /\
    (forall parsed : any,
        no_override env -> config_json env = config parsed ->
        ~ nullish parsed -> truthy (field parsed "websocketUrl") = true ->
        getWebSocketAddress env = field parsed "websocketUrl") /\
    (forall found : string,
        no_override env -> no_config_url env ->
        scan_logs (app_logs env) = Some found ->
        getWebSocketAddress env = VStr found) /\
    (forall interfaces ip others,
        no_override env -> no_config_url env ->
        scan_logs (app_logs env) = None ->
        networkInterfaces env = Some interfaces ->
        getLocalIpAddresses interfaces = ip :: others ->
        getWebSocketAddress env = VStr ("ws://" +:+ ip +:+ ":8765")) /\
    (no_override env -> no_config_url env ->
     scan_logs (app_logs env) = None ->
     (networkInterfaces env = None \/
      exists interfaces, networkInterfaces env = Some interfaces /\
                         getLocalIpAddresses interfaces = []) ->
     getWebSocketAddress env = VStr "ws://localhost:8765").
Proof.
  intros env. repeat split.
  - intros s Hs Hne. unfold getWebSocketAddress. rewrite Hs.
    destruct (String.eqb_spec s EmptyString); [contradiction | reflexivity].
  - intros parsed Ho Hc Hn Ht. rewrite (getWebSocketAddress_no_override env Ho).
    rewrite Hc, (Get_field _ _ Hn), Ht. reflexivity.
  - intros found Ho Hc Hs. rewrite (getWebSocketAddress_no_config env Ho Hc), Hs.
    reflexivity.
  - intros ifs ip others Ho Hc Hs Hi Hip.
    rewrite (getWebSocketAddress_no_config env Ho Hc), Hs, Hi, Hip. reflexivity.
  - intros Ho Hc Hs [Hi | (ifs & Hi & Hip)];
      rewrite (getWebSocketAddress_no_config env Ho Hc), Hs, Hi;
      [|rewrite Hip]; reflexivity.
Qed.

Lemma endpoint_resolution_order_witness :
  let env := mkEnvironment (Some "ws://10.1.2.3:9000")
               (config (VObj [("websocketUrl", VStr "ws://config:1")]))
               [content "WebSocketサーバー: ws://192.168.0.2:8765"]
               (Some [("eth0", Some [mkInterfaceInfo "192.168.0.7" "IPv4" false])]) in
  WEBSOCKET_URL env = Some "ws://10.1.2.3:9000" /\
  "ws://10.1.2.3:9000" <> EmptyString /\
  getWebSocketAddress env = VStr "ws://10.1.2.3:9000".
Proof.
  assert (Hne : "ws://10.1.2.3:9000" <> EmptyString) by discriminate.
  split; [reflexivity|]. split; [exact Hne|].
  apply (proj1 (endpoint_resolution_order
                  (mkEnvironment (Some "ws://10.1.2.3:9000")
                     (config (VObj [("websocketUrl", VStr "ws://config:1")]))
                     [content "WebSocketサーバー: ws://192.168.0.2:8765"]
                     (Some [("eth0",
                             Some [mkInterfaceInfo "192.168.0.7" "IPv4" false])]))));
    [reflexivity | exact Hne].
Defined.

(** X24.  The resolved endpoint is never an empty value, and it is a
    non-empty string unless [config.json] itself supplies a
    [websocketUrl] that is not a string: that value alone is passed on
    unchecked. *)
Theorem endpoint_is_usable :
  forall env : Environment,
    truthy (getWebSocketAddress env) = true /\
    ((forall parsed : any,
         config_json env = config parsed ->
         truthy (field parsed "websocketUrl") = true ->
         typeof_string (field parsed "websocketUrl") = true) ->
     exists s : string,
       getWebSocketAddress env = VStr s /\ s <> EmptyString).
Proof.
  intros env.
  assert (Hlow : no_override env -> no_config_url env ->
                 exists s, getWebSocketAddress env = VStr s /\ s <> EmptyString).
  { intros Ho Hc. rewrite (getWebSocketAddress_no_config env Ho Hc).
    destruct (scan_logs (app_logs env)) as [found|] eqn:Hs.
    - destruct (scan_logs_nonempty _ _ Hs) as [rest ->].
      eexists. split; [reflexivity | discriminate].
    - destruct (networkInterfaces env) as [ifs|];
        [destruct (getLocalIpAddresses ifs)|];
        eexists; (split; [reflexivity | discriminate]). }
  assert (Hstr : forall s, s <> EmptyString -> truthy (VStr s) = true).
  { intros s Hs. simpl. destruct (String.eqb_spec s EmptyString);
      [contradiction | reflexivity]. }
  destruct (WEBSOCKET_URL env) as [s|] eqn:He;
    [destruct (String.eqb_spec s EmptyString) as [->|Hne]|].
  2:{ assert (H : getWebSocketAddress env = VStr s).
      { unfold getWebSocketAddress. rewrite He.
        destruct (String.eqb_spec s EmptyString); [contradiction | reflexivity]. }
      rewrite H. split; [apply Hstr, Hne | eauto]. }
  all: assert (Ho : no_override env) by (unfold no_override; auto).
  all: destruct (config_json env) as [| |parsed] eqn:Hc;
    try (destruct (Hlow Ho) as (s' & Hs' & Hne');
         [unfold no_config_url; rewrite Hc; exact I|];
         rewrite Hs'; split; [apply Hstr, Hne' | eauto]).
  all: destruct parsed as [| | b | n | s0 | items | props] eqn:Hp;
    try (destruct (Hlow Ho) as (s' & Hs' & Hne');
         [unfold no_config_url, nullish; rewrite Hc; simpl; auto|];
         rewrite Hs'; split; [apply Hstr, Hne' | eauto]).
  all: destruct (truthy (field parsed "websocketUrl")) eqn:Ht; subst parsed;
    try (destruct (Hlow Ho) as (s' & Hs' & Hne');
         [unfold no_config_url; rewrite Hc; right; exact Ht|];
         rewrite Hs'; split; [apply Hstr, Hne' | eauto]).
  all: rewrite (getWebSocketAddress_no_override env Ho), Hc;
    change (Get (VObj props) "websocketUrl")
      with (Normal (field (VObj props) "websocketUrl"));
    cbv beta iota; rewrite Ht; split; [exact Ht|];
    intros Hcfg; specialize (Hcfg _ eq_refl Ht);
    destruct (field (VObj props) "websocketUrl") as [| | | |u| |];
    try discriminate Hcfg;
    exists u; split; [reflexivity|];
    intros ->; discriminate Ht.
Qed.

Lemma endpoint_is_usable_witness :
  let env := mkEnvironment None
               (config (VObj [("websocketUrl", VStr "ws://172.16.0.9:8765")]))
               [] None in
  (forall parsed : any,
      config_json env = config parsed ->
      truthy (field parsed "websocketUrl") = true ->
      typeof_string (field parsed "websocketUrl") = true) /\
  exists s : string, getWebSocketAddress env = VStr s /\ s <> EmptyString.
Proof.
  assert (H : forall parsed : any,
             config (VObj [("websocketUrl", VStr "ws://172.16.0.9:8765")]) =
             config parsed ->
             truthy (field parsed "websocketUrl") = true ->
             typeof_string (field parsed "websocketUrl") = true).
  { intros parsed E _. injection E as <-. reflexivity. }
  split; [exact H|].
  apply (proj2 (endpoint_is_usable
                  (mkEnvironment None
                     (config (VObj [("websocketUrl", VStr "ws://172.16.0.9:8765")]))
                     [] None))), H.
Defined.

(** X25.  What the log scan extracts is always an address of the form
    [ws://<digits and dots>:<digits>] that stands in the log right after
    the marker text; nothing else of the log's content can come out. *)
Theorem log_match_yields_address :
  forall bytes found : string,
    log_match bytes = Some found ->
    exists pre host port post : string,
      bytes = pre +:+ log_marker +:+ found +:+ post /\
      found = "ws://" +:+ host +:+ ":" +:+ port /\
      host <> EmptyString /\
      Forall (fun c => host_char c = true) (list_ascii_of_string host) /\
      digits port.
Proof. exact log_match_sound. Qed.

Lemma log_match_yields_address_witness :
  let bytes := "12:00 WebSocketサーバー: ws://192.168.1.5:8765 (ok)" in
  log_match bytes = Some "ws://192.168.1.5:8765" /\
  exists pre host port post : string,
    bytes = pre +:+ log_marker +:+ "ws://192.168.1.5:8765" +:+ post /\
    "ws://192.168.1.5:8765" = "ws://" +:+ host +:+ ":" +:+ port.
Proof.
  split; [reflexivity|].
  destruct (log_match_yields_address
              "12:00 WebSocketサーバー: ws://192.168.1.5:8765 (ok)"
              "ws://192.168.1.5:8765" eq_refl)
    as (pre & host & port & post & H1 & H2 & _).
  exists pre, host, port, post. split; [exact H1 | exact H2].
Defined.

Lemma scan_logs_unreadable (before after : list file) :
  Forall (fun f => f = absent \/
                   exists b, f = content b /\ log_match b = None) before ->
  scan_logs (before ++ unreadable :: after) = None.
Proof.
  induction 1 as [|f before [-> | (b & -> & Hb)] _ IH]; simpl.
  - reflexivity.
  - exact IH.
  - rewrite Hb. exact IH.
Qed.

(** X26.  The candidate logs are tried in order and the first address
    found is taken: a log supplies the address exactly when every log
    before it is absent or holds no address.  A log that exists but cannot
    be read ends the scan: the logs after it are not consulted. *)
Theorem log_scan_takes_first_address :
  forall logs : list file,
    (forall found : string,
        scan_logs logs = Some found <->
        exists before bytes after,
          logs = (before ++ content bytes :: after)%list /\
          log_match bytes = Some found /\
          Forall (fun f => f = absent \/
                           exists b, f = content b /\ log_match b = None)
                 before) /\
    (forall before after : list file,
        logs = (before ++ unreadable :: after)%list ->
        Forall (fun f => f = absent \/
                         exists b, f = content b /\ log_match b = None)
               before ->
        scan_logs logs = None).
Proof.
  intros logs. split.
  - intros found. apply scan_logs_spec.
  - intros before after -> H. apply scan_logs_unreadable, H.
Qed.

Lemma log_scan_takes_first_address_witness :
  let good := content "WebSocketサーバー: ws://10.0.0.1:8765" in
  Forall (fun f => f = absent \/
                   exists b, f = content b /\ log_match b = None) [absent] /\
  scan_logs [absent; unreadable; good] = None /\
  scan_logs [absent; good; unreadable] = Some "ws://10.0.0.1:8765".
Proof.
  assert (H : Forall (fun f => f = absent \/
                               exists b, f = content b /\ log_match b = None)
                     [absent]) by (constructor; [left; reflexivity | constructor]).
  split; [exact H|]. split; [|reflexivity].
  apply (proj2 (log_scan_takes_first_address
                  [absent; unreadable;
                   content "WebSocketサーバー: ws://10.0.0.1:8765"])
           [absent] [content "WebSocketサーバー: ws://10.0.0.1:8765"] eq_refl H).
Defined.

(** [getLocalIpAddresses] keeps exactly the addresses of the
    entries that are IPv4 and not internal, leaving out loopback entries,
    IPv6 entries and interfaces without a list of entries. *)
Theorem local_addresses_are_external_ipv4 :
  forall (interfaces : list (string * option (list NetworkInterfaceInfo)))
         (a : string),
    In a (getLocalIpAddresses interfaces) <->
    exists name iface details,
      In (name, Some iface) interfaces /\ In details iface /\
      family details = "IPv4" /\ internal details = false /\
      address details = a.
Proof.
  intros interfaces a. unfold getLocalIpAddresses.
  rewrite in_flat_map. split.
  - intros ([name [iface|]] & Hin & Ha); simpl in Ha; [|contradiction].
    apply in_map_iff in Ha as (d & Hd & Hf).
    apply filter_In in Hf as [Hf Hc].
    apply andb_true_iff in Hc as [H4 Hi].
    apply String.eqb_eq in H4. apply negb_true_iff in Hi.
    exists name, iface, d. auto.
  - intros (name & iface & d & Hin & Hd & H4 & Hi & Ha).
    exists (name, Some iface). split; [exact Hin|]. simpl.
    apply in_map_iff. exists d. split; [exact Ha|].
    apply filter_In. split; [exact Hd|].
    rewrite H4, Hi. reflexivity.
Qed.
